(** * svg-2-code: the format converter of [src/app/page.tsx]

    A shallow embedding of the text-transformation layer of the page
    component ([convertToReactProps], [getTransformedCode]) and of its
    handlers ([handleFileUpload], [handleDrop], [handleFileInput],
    [handleCopy], [handleDownload], [getFormatLabel]), with the properties
    the specification states about them and further properties read off
    the code.

    JavaScript strings are sequences of UTF-16 code units; they are
    modelled as lists of integers, a code unit being an integer in
    [0, 65536).  The built-ins the component calls ([String.prototype.replace]
    with the regular expressions of the source, [String.prototype.trim],
    [encodeURIComponent]) are modelled after ECMA-262. *)

From Stdlib Require Import String Ascii ZArith List Bool Lia ZifyBool.
Import ListNotations.
Local Open Scope Z_scope.

(* ================================================================= *)
(** ** Strings *)

Definition str : Type := list Z.

(** The code units of an ASCII literal of the source. *)
Fixpoint txt (s : string) : str :=
  match s with
  | EmptyString => []
  | String a r => Z.of_N (N_of_ascii a) :: txt r
  end.

Definition code_unit (c : Z) : Prop := 0 <= c < 65536.

(** A quoted literal: the text between two double-quote characters. *)
Definition q (s : string) : str := [34] ++ txt s ++ [34].

Definition nl : str := [10].

(** The lines of a multi-line template literal, joined by line feeds. *)
Fixpoint lines (l : list str) : str :=
  match l with
  | [] => []
  | [x] => x
  | x :: r => x ++ nl ++ lines r
  end.

Fixpoint starts_with (k s : str) : bool :=
  match k, s with
  | [], _ => true
  | _ :: _, [] => false
  | a :: k', b :: s' => (a =? b) && starts_with k' s'
  end.

(** [String.prototype.includes]: [k] occurs somewhere in [s]. *)
Fixpoint includes (k s : str) : bool :=
  starts_with k s ||
  match s with
  | [] => false
  | _ :: s' => includes k s'
  end.

Definition ends_with (k s : str) : bool := starts_with (rev k) (rev s).

(* ================================================================= *)
(** ** Regular expressions of the source

    The three regular-expression literals of the source and the ones built
    by [new RegExp(old, "g")] are sequences of literal characters and of
    greedy negated-class stars [[^c]*], one of them capturing.  [match_here]
    is a backtracking matcher for such sequences, anchored at the start of
    its input; it returns the matched text, the text of capture group 1
    and the rest of the input.  [Chr c] is the literal character [c];
    [NotStar cap c] is the greedy star over every character but [c],
    capturing when [cap] is set. *)

Inductive atom : Type :=
| Chr (c : Z)
| NotStar (capture : bool) (c : Z).

Definition regex : Type := list atom.

Definition is_capture (a : atom) : bool :=
  match a with
  | Chr _ => false
  | NotStar cap _ => cap
  end.

Definition has_group (p : regex) : bool := existsb is_capture p.

Definition match_result : Type := (str * str * str)%type.

Definition consume (x : Z) (cap : bool) (r : match_result) : match_result :=
  match r with
  | (m, g, rest) => (x :: m, if cap then x :: g else g, rest)
  end.

(** Two adjustments of a match result: more matched text in front, more
    input behind. *)
Definition prepend (k : str) (r : match_result) : match_result :=
  match r with
  | (m, g, rest) => (k ++ m, g, rest)
  end.

Definition add_rest (w : str) (r : match_result) : match_result :=
  match r with
  | (m, g, rest) => (m, g, rest ++ w)
  end.

(** The greedy star: pass over one more character when that leads to a
    match of what follows, [continue], and try [continue] here otherwise. *)
Fixpoint star (cap : bool) (c : Z) (continue : str -> option match_result)
    (s : str) : option match_result :=
  match s with
  | x :: s' =>
      if x =? c then continue s
      else match star cap c continue s' with
           | Some r => Some (consume x cap r)
           | None => continue s
           end
  | [] => continue s
  end.

Fixpoint match_here (p : regex) (s : str) {struct p} : option match_result :=
  match p with
  | [] => Some ([], [], s)
  | Chr c :: p' =>
      match s with
      | x :: s' =>
          if x =? c then option_map (consume x false) (match_here p' s')
          else None
      | [] => None
      end
  | NotStar cap c :: p' => star cap c (match_here p') s
  end.

(** The replacement patterns of [GetSubstitution] expanded here: [$$],
    [$&] and, when the expression has a capture group, [$1].  The
    templates of the source use [$1] only. *)
Fixpoint expand (tpl m : str) (g : option str) : str :=
  match tpl with
  | [] => []
  | x :: t =>
      if x =? 36 then
        match t with
        | y :: t' =>
            if y =? 36 then 36 :: expand t' m g
            else if y =? 38 then m ++ expand t' m g
            else if y =? 49 then
              match g with
              | Some g1 => g1 ++ expand t' m g
              | None => x :: expand t m g
              end
            else x :: expand t m g
        | [] => [x]
        end
      else x :: expand t m g
  end.

Definition replacement (p : regex) (tpl : str) (m g : str) : str :=
  expand tpl m (if has_group p then Some g else None).

(** [s.replace(p, tpl)] for an expression without the [g] flag: the
    leftmost match is replaced, the rest of the string is kept. *)
Fixpoint replace_first (p : regex) (tpl : str) (s : str) : str :=
  match match_here p s with
  | Some (m, g, r) => replacement p tpl m g ++ r
  | None =>
      match s with
      | [] => []
      | x :: s' => x :: replace_first p tpl s'
      end
  end.

(** [s.replace(p, tpl)] for an expression with the [g] flag: matches are
    searched from left to right, each search starting where the previous
    match ended (one character further after an empty match).  [skip] is
    the number of characters of the current match still to pass over. *)
Fixpoint replace_from (p : regex) (tpl : str) (skip : nat) (s : str) : str :=
  match s with
  | [] =>
      match skip, match_here p [] with
      | O, Some (m, g, _) => replacement p tpl m g
      | _, _ => []
      end
  | x :: s' =>
      match skip with
      | S k => replace_from p tpl k s'
      | O =>
          match match_here p s with
          | Some ([], g, _) =>
              replacement p tpl [] g ++ x :: replace_from p tpl 0 s'
          | Some (y :: m', g, _) =>
              replacement p tpl (y :: m') g
                ++ replace_from p tpl (length m') s'
          | None => x :: replace_from p tpl 0 s'
          end
      end
  end.

Definition replace_all (p : regex) (tpl : str) (s : str) : str :=
  replace_from p tpl 0 s.

(** [new RegExp(old, "g")] for a source text [old] made of letters and
    hyphens only: every character stands for itself. *)
Definition RegExp_literal (old : str) : regex := map Chr old.

(* ================================================================= *)
(** ** [String.prototype.trim] *)

(** WhiteSpace and LineTerminator code points of ECMA-262. *)
Definition is_white (c : Z) : bool :=
  (c =? 9) || (c =? 10) || (c =? 11) || (c =? 12) || (c =? 13) || (c =? 32)
  || (c =? 160) || (c =? 5760) || ((8192 <=? c) && (c <=? 8202))
  || (c =? 8232) || (c =? 8233) || (c =? 8239) || (c =? 8287)
  || (c =? 12288) || (c =? 65279).

Fixpoint trim_start (s : str) : str :=
  match s with
  | [] => []
  | x :: s' => if is_white x then trim_start s' else s
  end.

Definition trim_end (s : str) : str := rev (trim_start (rev s)).

Definition trim (s : str) : str := trim_end (trim_start s).

(* ================================================================= *)
(** ** [convertToReactProps] *)

(** The expression [<\?xml[^?]*\?>], with the [g] flag. *)
Definition xml_declaration : regex :=
  map Chr (txt "<?xml") ++ [NotStar false 63; Chr 63; Chr 62].

Definition attributeMap : list (str * str) :=
  [ (txt "stroke-width", txt "strokeWidth");
    (txt "stroke-linecap", txt "strokeLinecap");
    (txt "stroke-linejoin", txt "strokeLinejoin");
    (txt "stroke-miterlimit", txt "strokeMiterlimit");
    (txt "stroke-dasharray", txt "strokeDasharray");
    (txt "stroke-dashoffset", txt "strokeDashoffset");
    (txt "stroke-opacity", txt "strokeOpacity");
    (txt "fill-opacity", txt "fillOpacity");
    (txt "fill-rule", txt "fillRule");
    (txt "clip-path", txt "clipPath");
    (txt "clip-rule", txt "clipRule");
    (txt "font-family", txt "fontFamily");
    (txt "font-size", txt "fontSize");
    (txt "font-weight", txt "fontWeight");
    (txt "text-anchor", txt "textAnchor");
    (txt "stop-color", txt "stopColor");
    (txt "stop-opacity", txt "stopOpacity");
    (txt "marker-end", txt "markerEnd");
    (txt "marker-start", txt "markerStart");
    (txt "marker-mid", txt "markerMid") ].

(** The [forEach] over [Object.entries(attributeMap)]: the entries are
    visited in insertion order, each one rewriting [converted]. *)
Definition rename_step (converted : str) (entry : str * str) : str :=
  replace_all (RegExp_literal (fst entry)) (snd entry) converted.

Definition rename_attributes (converted : str) : str :=
  fold_left rename_step attributeMap converted.

(** The expression matching the opening svg tag, without flags: the
    literal [<svg], a capturing star over every character but [>], and
    the literal [>]. *)
Definition svg_open_tag : regex :=
  map Chr (txt "<svg") ++ [NotStar true 62; Chr 62].

(** The text spliced in after the tag name. *)
Definition svg_splice : str :=
  txt " {...props} fill=" ++ q "currentColor" ++ txt " role=" ++ q "img".

(** ['<svg {...props} fill="currentColor" role="img"$1>'] *)
Definition svg_open_tag_template : str :=
  txt "<svg" ++ svg_splice ++ txt "$1>".

Definition strip_xml_declaration (s : str) : str :=
  replace_all xml_declaration [] s.

Definition splice_props (s : str) : str :=
  replace_first svg_open_tag svg_open_tag_template s.

Definition convertToReactProps (svgString : str) : str :=
  let converted := svgString in
  let converted := strip_xml_declaration converted in
  let converted := rename_attributes converted in
  let converted := splice_props converted in
  trim converted.

(* ================================================================= *)
(** ** [encodeURIComponent] and [decodeURIComponent]

    [Encode] and [Decode] of ECMA-262 with the unreserved set of
    [encodeURIComponent] and the empty preserved set of
    [decodeURIComponent].  Both throw a URIError on malformed input, which
    is the result [None] here. *)

Definition between (lo hi c : Z) : bool := (lo <=? c) && (c <=? hi).

Definition is_lead_surrogate (c : Z) : bool := between 55296 56319 c.
Definition is_trail_surrogate (c : Z) : bool := between 56320 57343 c.

(** uriUnreserved: ASCII letters, decimal digits and [-_.!~*'()]. *)
Definition uri_unreserved (c : Z) : bool :=
  between 65 90 c || between 97 122 c || between 48 57 c
  || (c =? 45) || (c =? 95) || (c =? 46) || (c =? 33) || (c =? 126)
  || (c =? 42) || (c =? 39) || (c =? 40) || (c =? 41).

Definition hex_digit (d : Z) : Z := if d <? 10 then 48 + d else 55 + d.

(** The escape of one octet: a percent sign and two upper-case hex digits. *)
Definition escape (b : Z) : str := [37; hex_digit (b / 16); hex_digit (b mod 16)].

Definition utf8 (cp : Z) : list Z :=
  if cp <? 128 then [cp]
  else if cp <? 2048 then [192 + cp / 64; 128 + cp mod 64]
  else if cp <? 65536 then
    [224 + cp / 4096; 128 + (cp / 64) mod 64; 128 + cp mod 64]
  else
    [240 + cp / 262144; 128 + (cp / 4096) mod 64;
     128 + (cp / 64) mod 64; 128 + cp mod 64].

Definition escape_code_point (cp : Z) : str := flat_map escape (utf8 cp).

Definition surrogate_pair (lead trail : Z) : Z :=
  (lead - 55296) * 1024 + (trail - 56320) + 65536.

Fixpoint encodeURIComponent (s : str) : option str :=
  match s with
  | [] => Some []
  | c :: rest =>
      if uri_unreserved c then option_map (cons c) (encodeURIComponent rest)
      else if is_trail_surrogate c then None
      else if is_lead_surrogate c then
        match rest with
        | c2 :: rest' =>
            if is_trail_surrogate c2 then
              option_map (app (escape_code_point (surrogate_pair c c2)))
                         (encodeURIComponent rest')
            else None
        | [] => None
        end
      else option_map (app (escape_code_point c)) (encodeURIComponent rest)
  end.

(** [String.prototype.isWellFormed]: no unpaired surrogate. *)
Fixpoint isWellFormed (s : str) : bool :=
  match s with
  | [] => true
  | c :: rest =>
      if is_trail_surrogate c then false
      else if is_lead_surrogate c then
        match rest with
        | c2 :: rest' => is_trail_surrogate c2 && isWellFormed rest'
        | [] => false
        end
      else isWellFormed rest
  end.

Definition hex_value (c : Z) : option Z :=
  if between 48 57 c then Some (c - 48)
  else if between 65 70 c then Some (c - 55)
  else if between 97 102 c then Some (c - 87)
  else None.

(** One escape sequence at the head of [s]: its octet and what follows. *)
Definition read_escape (s : str) : option (Z * str) :=
  match s with
  | p :: h :: l :: r =>
      if p =? 37 then
        match hex_value h, hex_value l with
        | Some a, Some b => Some (16 * a + b, r)
        | _, _ => None
        end
      else None
  | _ => None
  end.

Fixpoint read_continuations (n : nat) (s : str) : option (list Z * str) :=
  match n with
  | O => Some ([], s)
  | S n' =>
      match read_escape s with
      | Some (b, r) =>
          match read_continuations n' r with
          | Some (bs, r') => Some (b :: bs, r')
          | None => None
          end
      | None => None
      end
  end.

(** The number of octets announced by a leading octet with its high bit
    set: the count of its leading one bits, when that is 2, 3 or 4. *)
Definition octet_count (b : Z) : option nat :=
  if between 192 223 b then Some 2%nat
  else if between 224 239 b then Some 3%nat
  else if between 240 247 b then Some 4%nat
  else None.

Definition is_continuation (b : Z) : bool := between 128 191 b.

(** The code point of a well-formed UTF-8 sequence of 2 to 4 octets:
    shortest form only, no surrogate, at most U+10FFFF. *)
Definition utf8_decode (octets : list Z) : option Z :=
  match octets with
  | [b0; b1] =>
      let v := (b0 - 192) * 64 + (b1 - 128) in
      if is_continuation b1 && (128 <=? v) then Some v else None
  | [b0; b1; b2] =>
      let v := (b0 - 224) * 4096 + (b1 - 128) * 64 + (b2 - 128) in
      if is_continuation b1 && is_continuation b2 && (2048 <=? v)
         && negb (between 55296 57343 v)
      then Some v else None
  | [b0; b1; b2; b3] =>
      let v := (b0 - 240) * 262144 + (b1 - 128) * 4096
               + (b2 - 128) * 64 + (b3 - 128) in
      if is_continuation b1 && is_continuation b2 && is_continuation b3
         && between 65536 1114111 v
      then Some v else None
  | _ => None
  end.

Definition utf16 (cp : Z) : str :=
  if cp <? 65536 then [cp]
  else [55296 + (cp - 65536) / 1024; 56320 + (cp - 65536) mod 1024].

(** [Decode]: one iteration per decoded character; [fuel] bounds the
    number of iterations. *)
Fixpoint decode (fuel : nat) (s : str) : option str :=
  match s with
  | [] => Some []
  | c :: r =>
      match fuel with
      | O => None
      | S fuel' =>
          if c =? 37 then
            match read_escape s with
            | None => None
            | Some (b, r1) =>
                if b <? 128 then option_map (cons b) (decode fuel' r1)
                else
                  match octet_count b with
                  | None => None
                  | Some n =>
                      match read_continuations (Nat.pred n) r1 with
                      | None => None
                      | Some (bs, r2) =>
                          match utf8_decode (b :: bs) with
                          | None => None
                          | Some v =>
                              option_map (app (utf16 v)) (decode fuel' r2)
                          end
                      end
                  end
            end
          else option_map (cons c) (decode fuel' r)
      end
  end.

(** Every iteration consumes a character, so the length of the input is
    fuel enough. *)
Definition decodeURIComponent (s : str) : option str :=
  decode (List.length s) s.

(* ================================================================= *)
(** ** [getTransformedCode] *)

Inductive FormatType : Type := raw | html | js | jsx | tsx | css.

(** The result of a call: the string returned, or the URIError that
    [encodeURIComponent] throws and nothing catches. *)
Inductive outcome : Type :=
| Returns (code : str)
| URIError.

Definition html_template (svgContent : str) : str :=
  lines
    [ txt "<!DOCTYPE html>";
      txt "<html lang=" ++ q "en" ++ txt ">";
      txt "<head>";
      txt "  <meta charset=" ++ q "UTF-8" ++ txt ">";
      txt "  <meta name=" ++ q "viewport" ++ txt " content="
        ++ q "width=device-width, initial-scale=1.0" ++ txt ">";
      txt "  <title>SVG Icon</title>";
      txt "</head>";
      txt "<body>";
      txt "  <div class=" ++ q "icon-container" ++ txt ">";
      txt "    " ++ svgContent;
      txt "  </div>";
      txt "</body>";
      txt "</html>" ].

Definition js_template (svgContent : str) : str :=
  lines
    [ txt "const IconSvg = `" ++ svgContent ++ txt "`;";
      [];
      txt "export default IconSvg;" ].

Definition jsx_head : str := txt "const Icon = (props) => (" ++ nl ++ txt "  ".

Definition tsx_head : str :=
  lines
    [ txt "import { SVGProps } from 'react';";
      [];
      txt "const Icon = (props: SVGProps<SVGSVGElement>) => (";
      txt "  " ].

Definition component_tail : str :=
  nl ++ lines [ txt ");"; []; txt "export default Icon;" ].

Definition jsx_template (jsxConverted : str) : str :=
  jsx_head ++ jsxConverted ++ component_tail.

Definition tsx_template (tsxConverted : str) : str :=
  tsx_head ++ tsxConverted ++ component_tail.

Definition css_head : str :=
  lines
    [ txt ".icon-bg {";
      txt "  background-image: url(" ++ [34]
        ++ txt "data:image/svg+xml;charset=utf8," ].

Definition css_tail : str :=
  lines
    [ [34] ++ txt ");";
      txt "  background-size: contain;";
      txt "  background-repeat: no-repeat;";
      txt "  background-position: center;";
      txt "  width: 24px;";
      txt "  height: 24px;";
      txt "}" ].

Definition css_template (encodedSvg : str) : str :=
  css_head ++ encodedSvg ++ css_tail.

(** The two [replace] calls after [encodeURIComponent]. *)
Definition escape_quotes (s : str) : str :=
  replace_all [Chr 34] (txt "%22") (replace_all [Chr 39] (txt "%27") s).

Definition getTransformedCode
    (svgContent : str) (selectedFormat : FormatType) : outcome :=
  match svgContent with
  | [] => Returns []
  | _ :: _ =>
      match selectedFormat with
      | raw => Returns svgContent
      | html => Returns (html_template svgContent)
      | js => Returns (js_template svgContent)
      | jsx => Returns (jsx_template (convertToReactProps svgContent))
      | tsx => Returns (tsx_template (convertToReactProps svgContent))
      | css =>
          match encodeURIComponent svgContent with
          | Some encoded => Returns (css_template (escape_quotes encoded))
          | None => URIError
          end
      end
  end.

(** The data-URI payload of a [css] output: what stands between the fixed
    head and the fixed tail of the rule. *)
Fixpoint strip_prefix (k s : str) : option str :=
  match k, s with
  | [], _ => Some s
  | _ :: _, [] => None
  | a :: k', b :: s' => if a =? b then strip_prefix k' s' else None
  end.

Definition strip_suffix (k s : str) : option str :=
  option_map (@rev Z) (strip_prefix (rev k) (rev s)).

Definition css_payload (code : str) : option str :=
  match strip_prefix css_head code with
  | Some r => strip_suffix css_tail r
  | None => None
  end.

(* ================================================================= *)
(** ** Component state and [handleFileUpload] *)

Record File : Type := mkFile {
  file_type : str;   (* the declared MIME type, [file.type] *)
  file_text : str    (* what [readAsText] delivers to [onload] *)
}.

Record AppState : Type := mkState {
  svgContent : str;
  selectedFormat : FormatType;
  errorMessage : str;
  copySuccess : bool;
  isDragging : bool
}.

Definition initial_state : AppState := mkState [] raw [] false false.

Definition setSvgContent (v : str) (st : AppState) : AppState :=
  mkState v (selectedFormat st) (errorMessage st) (copySuccess st) (isDragging st).

Definition setSelectedFormat (v : FormatType) (st : AppState) : AppState :=
  mkState (svgContent st) v (errorMessage st) (copySuccess st) (isDragging st).

Definition setErrorMessage (v : str) (st : AppState) : AppState :=
  mkState (svgContent st) (selectedFormat st) v (copySuccess st) (isDragging st).

Definition str_eqb (a b : str) : bool :=
  (List.length a =? List.length b)%nat && starts_with a b.

Definition invalid_file_type : str :=
  txt "Invalid file type. Please upload an SVG file.".

(** [handleFileUpload]: the state after the handler returns, and the text
    a started [FileReader] will later deliver, if one was started. *)
Definition handleFileUpload (file : File) (st : AppState)
  : AppState * option str :=
  let st := setErrorMessage [] st in
  if negb (str_eqb (file_type file) (txt "image/svg+xml")) then
    (setErrorMessage invalid_file_type st, None)
  else
    (st, Some (file_text file)).

(** The [onload] callback of the reader. *)
Definition reader_onload (content : str) (st : AppState) : AppState :=
  setSelectedFormat raw (setSvgContent content st).

(** What the page shows under the upload area: the error banner is
    rendered when [errorMessage] is a non-empty string. *)
Definition error_banner (st : AppState) : option str :=
  match errorMessage st with
  | [] => None
  | m => Some m
  end.

(** The component's view of the converter: the memoised callback reads the
    content and the format from the state. *)
Definition transformed_code (st : AppState) : outcome :=
  getTransformedCode (svgContent st) (selectedFormat st).

(* ================================================================= *)
(** ** The shape of the rename table

    Every key of [attributeMap] is a run of lower-case letters, a hyphen
    and a second run of lower-case letters; its replacement drops the hyphen
    and puts the letter after it in upper case.  No key has a border: no
    proper suffix of a key is also one of its prefixes. *)

Definition lower (c : Z) : bool := between 97 122 c.

Definition key_char (c : Z) : bool := lower c || (c =? 45).

Fixpoint tails (s : str) : list str :=
  match s with
  | [] => []
  | _ :: s' => s :: tails s'
  end.

Definition unbordered (k : str) : bool :=
  forallb (fun w => negb (starts_with w k)) (tails (tl k)).

Fixpoint take_lower (s : str) : str :=
  match s with
  | [] => []
  | x :: s' => if lower x then x :: take_lower s' else []
  end.

Definition entry_shape (e : str * str) : bool :=
  let a := take_lower (fst e) in
  match skipn (List.length a) (fst e) with
  | h :: b0 :: b2 =>
      (h =? 45) && lower b0 && forallb lower b2
      && between 65 90 (b0 - 32)
      && str_eqb (snd e) (a ++ (b0 - 32) :: b2)
      && negb (existsb (Z.eqb 36) (snd e))
      && unbordered (fst e)
  | _ => false
  end.

Definition all_white (w : str) : bool := forallb is_white w.

(** ** Expressions that do not see surrounding white space

    An expression is anchored when it starts with a literal character that
    is not white space, and pad-safe when all its literal characters are
    such and each of its stars is followed by one. *)

Definition anchored (p : regex) : bool :=
  match p with
  | Chr c :: _ => negb (is_white c)
  | _ => false
  end.

Fixpoint pad_safe (p : regex) : bool :=
  match p with
  | [] => true
  | Chr c :: p' => negb (is_white c) && pad_safe p'
  | NotStar _ _ :: p' => anchored p' && pad_safe p'
  end.

(** The rewriting steps of [convertToReactProps] before [trim]. *)
Definition transform (s : str) : str :=
  splice_props (rename_attributes (strip_xml_declaration s)).

(* ================================================================= *)
(** ** The other handlers of the component *)

Definition setCopySuccess (v : bool) (st : AppState) : AppState :=
  mkState (svgContent st) (selectedFormat st) (errorMessage st) v (isDragging st).

Definition setIsDragging (v : bool) (st : AppState) : AppState :=
  mkState (svgContent st) (selectedFormat st) (errorMessage st) (copySuccess st) v.

(** [handleDrop]: [files] is [e.dataTransfer.files]; only its first
    element is looked at. *)
Definition handleDrop (files : list File) (st : AppState)
  : AppState * option str :=
  let st := setIsDragging false st in
  match files with
  | file :: _ => handleFileUpload file st
  | [] => (st, None)
  end.

Definition handleDragOver (st : AppState) : AppState := setIsDragging true st.

Definition handleDragLeave (st : AppState) : AppState := setIsDragging false st.

(** [handleFileInput]: [files] is [e.target.files], empty when there is
    none. *)
Definition handleFileInput (files : list File) (st : AppState)
  : AppState * option str :=
  match files with
  | file :: _ => handleFileUpload file st
  | [] => (st, None)
  end.

(** [handleCopy]: the state once the promise of [writeText] has settled,
    and the text handed to the clipboard.  The converter is called before
    the [try]: when it throws, nothing is written and the state is kept.
    A rejected write is logged only.  The timer started after a write
    later runs [copy_timer]. *)
Definition handleCopy (clipboard_accepts : bool) (st : AppState)
  : AppState * option str :=
  match transformed_code st with
  | URIError => (st, None)
  | Returns code =>
      (if clipboard_accepts then setCopySuccess true st else st, Some code)
  end.

Definition copy_timer (st : AppState) : AppState := setCopySuccess false st.

Definition extensions (f : FormatType) : str :=
  match f with
  | raw => txt "svg"
  | html => txt "html"
  | js => txt "js"
  | jsx => txt "jsx"
  | tsx => txt "tsx"
  | css => txt "css"
  end.

(** [handleDownload]: the name and the text of the file offered for
    download; nothing when the converter throws. *)
Definition handleDownload (st : AppState) : option (str * str) :=
  match transformed_code st with
  | URIError => None
  | Returns code => Some (txt "icon." ++ extensions (selectedFormat st), code)
  end.

Record FormatEntry : Type := mkFormat {
  id : FormatType;
  label : str;
  description : str
}.

Definition formats : list FormatEntry :=
  [ mkFormat raw (txt "Raw SVG") (txt "Original SVG markup");
    mkFormat html (txt "HTML") (txt "HTML document wrapper");
    mkFormat js (txt "JavaScript") (txt "JS template literal");
    mkFormat jsx (txt "JSX") (txt "React component (untyped)");
    mkFormat tsx (txt "TSX") (txt "TypeScript React component");
    mkFormat css (txt "CSS") (txt "Data URI background") ].

Definition format_eqb (a b : FormatType) : bool :=
  match a, b with
  | raw, raw | html, html | js, js | jsx, jsx | tsx, tsx | css, css => true
  | _, _ => false
  end.

Definition getFormatLabel (selected : FormatType) : str :=
  match find (fun f => format_eqb (id f) selected) formats with
  | Some format => label format
  | None => txt "Code Viewer"
  end.

(** The copy and the download button are disabled while no content is
    loaded. *)
Definition buttons_disabled (st : AppState) : bool :=
  match svgContent st with
  | [] => true
  | _ :: _ => false
  end.

(* ================================================================= *)
(** ** The component as a transition system

    The state of the component together with the texts of the readers that
    were started and have not fired [onload] yet.  An event is one call of
    a handler: by the user, by a reader, by the clipboard promise or by the
    copy timer. *)

Record System : Type := mkSystem {
  component : AppState;
  readers : list str
}.

Inductive Event : Type :=
| PickFiles (files : list File)
| DropFiles (files : list File)
| DragOver
| DragLeave
| ReaderLoaded (i : nat)
| ClickFormat (f : FormatType)
| ClickCopy (clipboard_accepts : bool)
| CopyTimer
| ClickDownload.

Definition initial_system : System := mkSystem initial_state [].

Definition started (r : AppState * option str) (rs : list str) : System :=
  mkSystem (fst r)
           (match snd r with
            | Some content => rs ++ [content]
            | None => rs
            end).

Fixpoint remove_nth (i : nat) (rs : list str) : list str :=
  match rs, i with
  | [], _ => []
  | _ :: rs', O => rs'
  | r :: rs', S i' => r :: remove_nth i' rs'
  end.

Definition step (e : Event) (sys : System) : System :=
  let st := component sys in
  let rs := readers sys in
  match e with
  | PickFiles files => started (handleFileInput files st) rs
  | DropFiles files => started (handleDrop files st) rs
  | DragOver => mkSystem (handleDragOver st) rs
  | DragLeave => mkSystem (handleDragLeave st) rs
  | ReaderLoaded i =>
      match nth_error rs i with
      | Some content => mkSystem (reader_onload content st) (remove_nth i rs)
      | None => sys
      end
  | ClickFormat f => mkSystem (setSelectedFormat f st) rs
  | ClickCopy ok =>
      if buttons_disabled st then sys
      else mkSystem (fst (handleCopy ok st)) rs
  | CopyTimer => mkSystem (copy_timer st) rs
  | ClickDownload => sys
  end.

Definition run (events : list Event) (sys : System) : System :=
  fold_left (fun s e => step e s) events sys.

Definition is_svg_file (file : File) : bool :=
  str_eqb (file_type file) (txt "image/svg+xml").

(** The file an event hands to [handleFileUpload], if any. *)
Definition offered (e : Event) : option File :=
  match e with
  | PickFiles (file :: _) | DropFiles (file :: _) => Some file
  | _ => None
  end.


(** The last file a run handed to [handleFileUpload]. *)
Definition last_offered (events : list Event) : option File :=
  fold_left (fun last e =>
               match offered e with
               | Some file => Some file
               | None => last
               end) events None.

(* ================================================================= *)
(** ** Further notions for the converter *)

(** The fixed text of the html and of the js template around the
    content. *)
Definition html_head : str :=
  lines
    [ txt "<!DOCTYPE html>";
      txt "<html lang=" ++ q "en" ++ txt ">";
      txt "<head>";
      txt "  <meta charset=" ++ q "UTF-8" ++ txt ">";
      txt "  <meta name=" ++ q "viewport" ++ txt " content="
        ++ q "width=device-width, initial-scale=1.0" ++ txt ">";
      txt "  <title>SVG Icon</title>";
      txt "</head>";
      txt "<body>";
      txt "  <div class=" ++ q "icon-container" ++ txt ">";
      txt "    " ].

Definition html_tail : str :=
  nl ++ lines [ txt "  </div>"; txt "</body>"; txt "</html>" ].

Definition js_head : str := txt "const IconSvg = `".

Definition js_tail : str :=
  txt "`;" ++ nl ++ nl ++ txt "export default IconSvg;".

(** The characters of a css payload: the unreserved characters but the
    apostrophe, and the percent sign. *)
Definition payload_char (c : Z) : bool :=
  (uri_unreserved c && negb (c =? 39)) || (c =? 37).

(** An XML declaration as the expression of the source matches it. *)
Definition declaration (g : str) : str := txt "<?xml" ++ g ++ txt "?>".

(** A text has a tag for the splice when [<svg] occurs in it with a [>]
    somewhere after. *)
Fixpoint has_tag (s : str) : bool :=
  (starts_with (txt "<svg") s && existsb (Z.eqb 62) s) ||
  match s with
  | [] => false
  | _ :: s' => has_tag s'
  end.

(** A key that cannot start at one of the letters of [svg] when these
    follow a [<]. *)
Definition svg_free (k : str) : bool :=
  match k with
  | c0 :: c1 :: _ =>
      negb ((c0 =? 115) && (c1 =? 118)) && negb (c0 =? 118)
      && negb (c0 =? 103)
  | _ => false
  end.

(** A replacement that brings neither [<] nor [>]. *)
Definition bracket_free (c : str) : bool :=
  negb (existsb (Z.eqb 60) c) && negb (existsb (Z.eqb 62) c).

(* ================================================================= *)
(** * Properties *)

(** ** Prefixes and occurrences *)

Lemma starts_with_app (k r : str) : starts_with k (k ++ r) = true.
Proof.
  induction k as [|a k IH]; simpl; [reflexivity|].
  now rewrite Z.eqb_refl, IH.
Qed.

Lemma starts_with_inv (k s : str) :
  starts_with k s = true -> exists r, s = k ++ r.
Proof.
  revert s; induction k as [|a k IH]; intros s H.
  - now exists s.
  - destruct s as [|b s]; simpl in H; [discriminate|].
    apply andb_true_iff in H as [Hab H].
    apply Z.eqb_eq in Hab; subst b.
    destruct (IH _ H) as [r ->]. now exists r.
Qed.

Lemma starts_with_iff (k s : str) :
  starts_with k s = true <-> exists r, s = k ++ r.
Proof.
  split; [apply starts_with_inv|].
  intros [r ->]. apply starts_with_app.
Qed.

Lemma starts_with_app_l (k a r : str) :
  starts_with k a = true -> starts_with k (a ++ r) = true.
Proof.
  intros H. apply starts_with_inv in H as [a' ->].
  rewrite <- app_assoc. apply starts_with_app.
Qed.

(** A prefix that avoids the character [B] stops before it. *)
Lemma starts_with_block (u a : str) (B : Z) (r : str) :
  starts_with u (a ++ B :: r) = true -> ~ In B u ->
  starts_with u a = true.
Proof.
  revert a; induction u as [|x u IH]; intros a H HB; [reflexivity|].
  destruct a as [|y a]; simpl in H |- *.
  - apply andb_true_iff in H as [Hx _]. apply Z.eqb_eq in Hx.
    exfalso. apply HB. now left.
  - apply andb_true_iff in H as [Hx H]. rewrite Hx. simpl.
    apply IH; [exact H|]. intros Hin. apply HB. now right.
Qed.

(** A prefix of [w ++ t] either lies within [w] or covers [w]. *)
Lemma starts_with_split (u w t : str) :
  starts_with u (w ++ t) = true ->
  starts_with u w = true \/
  exists u2, u = w ++ u2 /\ starts_with u2 t = true.
Proof.
  revert u; induction w as [|y w IH]; intros u H.
  - right. now exists u.
  - destruct u as [|x u]; [now left|].
    simpl in H. apply andb_true_iff in H as [Hx H].
    apply Z.eqb_eq in Hx; subst y.
    destruct (IH _ H) as [Hw | [u2 [-> Hu2]]].
    + left. simpl. now rewrite Z.eqb_refl.
    + right. now exists u2.
Qed.

(** When [k] is no longer than [u], only [u] decides whether [k] is a
    prefix of [u ++ r]. *)
Lemma starts_with_app_long (k u r : str) :
  (List.length k <= List.length u)%nat ->
  starts_with k (u ++ r) = starts_with k u.
Proof.
  revert u; induction k as [|a k IH]; intros u Hlen; [reflexivity|].
  destruct u as [|b u]; simpl in Hlen; [lia|].
  simpl. rewrite IH by lia. reflexivity.
Qed.

Lemma includes_here (k s : str) :
  starts_with k s = true -> includes k s = true.
Proof.
  intros H. destruct s; simpl in *; rewrite H; reflexivity.
Qed.

Lemma includes_cons (k : str) (x : Z) (s : str) :
  includes k (x :: s) = starts_with k (x :: s) || includes k s.
Proof. reflexivity. Qed.

Lemma includes_app_r (k f t : str) :
  includes k t = true -> includes k (f ++ t) = true.
Proof.
  intros H. induction f as [|x f IH]; [exact H|].
  change ((x :: f) ++ t) with (x :: f ++ t).
  rewrite includes_cons, IH. apply orb_true_r.
Qed.

Lemma includes_app_l (k s t : str) :
  includes k s = true -> includes k (s ++ t) = true.
Proof.
  induction s as [|x s IH]; intros H.
  - simpl in H. rewrite orb_false_r in H.
    destruct k; [|discriminate]. destruct t; reflexivity.
  - change ((x :: s) ++ t) with (x :: s ++ t).
    rewrite includes_cons in *.
    apply orb_true_iff in H as [H | H].
    + change (x :: s ++ t) with ((x :: s) ++ t).
      now rewrite (starts_with_app_l _ _ _ H).
    + rewrite (IH H). apply orb_true_r.
Qed.

Lemma includes_iff (k s : str) :
  includes k s = true <-> exists pre post, s = pre ++ k ++ post.
Proof.
  split.
  - induction s as [|x s IH]; intros H.
    + simpl in H. rewrite orb_false_r in H.
      apply starts_with_inv in H as [r ->]. now exists [], r.
    + rewrite includes_cons in H. apply orb_true_iff in H as [H | H].
      * apply starts_with_inv in H as [r ->]. now exists [], r.
      * destruct (IH H) as [pre [post ->]]. now exists (x :: pre), post.
  - intros [pre [post ->]].
    apply includes_app_r, includes_here, starts_with_app.
Qed.

(** An occurrence in [w ++ t] lies in [t] or starts inside [w]. *)
Lemma includes_app_inv (k w t : str) :
  includes k (w ++ t) = true ->
  includes k t = true \/
  exists w1 x w2, w = w1 ++ x :: w2 /\ starts_with k (x :: w2 ++ t) = true.
Proof.
  induction w as [|x w IH]; intros H; [now left|].
  change ((x :: w) ++ t) with (x :: w ++ t) in H.
  rewrite includes_cons in H. apply orb_true_iff in H as [H | H].
  - right. now exists [], x, w.
  - destruct (IH H) as [Ht | [w1 [y [w2 [-> Hs]]]]]; [now left|].
    right. now exists (x :: w1), y, w2.
Qed.

(** Every character of an occurring text occurs. *)
Lemma includes_In (k s : str) (x : Z) :
  includes k s = true -> In x k -> In x s.
Proof.
  intros H Hx. apply includes_iff in H as [pre [post ->]].
  apply in_or_app. right. apply in_or_app. now left.
Qed.

(** A separator that does not occur in [k] splits the search. *)
Lemma includes_separator (k x : str) (sep : Z) (y : str) :
  k <> [] -> ~ In sep k ->
  includes k (x ++ sep :: y) = true ->
  includes k x = true \/ includes k y = true.
Proof.
  intros Hk Hsep H.
  apply includes_app_inv in H as [H | [w1 [c [w2 [-> H]]]]].
  - rewrite includes_cons in H. apply orb_true_iff in H as [H | H];
      [|now right].
    destruct k as [|a k]; [contradiction|].
    simpl in H. apply andb_true_iff in H as [Ha _].
    apply Z.eqb_eq in Ha. exfalso. apply Hsep. now left.
  - left. apply includes_app_r.
    change (c :: w2 ++ sep :: y) with ((c :: w2) ++ sep :: y) in H.
    apply includes_here. eapply starts_with_block; eassumption.
Qed.

(** ** The matcher and the two forms of [replace] *)

Lemma star_sound (cap : bool) (c : Z) (k : str -> option match_result) :
  (forall s m g r, k s = Some (m, g, r) -> s = m ++ r) ->
  forall s m g r, star cap c k s = Some (m, g, r) -> s = m ++ r.
Proof.
  intros Hk s; induction s as [|x s IH]; intros m g r H; simpl in H.
  - now apply Hk in H.
  - destruct (x =? c); [now apply Hk in H|].
    destruct (star cap c k s) as [[[m' g'] r']|] eqn:E.
    + injection H as <- _ <-. simpl. f_equal. eapply IH. reflexivity.
    + now apply Hk in H.
Qed.

(** What a match leaves is the input without the matched text. *)
Lemma match_here_sound (p : regex) :
  forall s m g r, match_here p s = Some (m, g, r) -> s = m ++ r.
Proof.
  induction p as [|a p IH]; intros s m g r H.
  - simpl in H. now injection H as <- _ <-.
  - destruct a as [c | cap c].
    + destruct s as [|x s]; simpl in H; [discriminate|].
      destruct (x =? c); [|discriminate].
      destruct (match_here p s) as [[[m' g'] r']|] eqn:E; [|discriminate].
      simpl in H. injection H as <- _ <-.
      simpl. f_equal. eapply IH. exact E.
    + simpl in H. eapply star_sound; eassumption.
Qed.

Lemma match_chars_app (k : str) (p : regex) (s : str) :
  match_here (map Chr k ++ p) (k ++ s)
  = option_map (prepend k) (match_here p s).
Proof.
  induction k as [|a k IH]; simpl.
  - destruct (match_here p s) as [[[m g] r]|]; reflexivity.
  - rewrite Z.eqb_refl, IH.
    destruct (match_here p s) as [[[m g] r]|]; reflexivity.
Qed.

Lemma match_chars_none (k : str) (p : regex) (s : str) :
  starts_with k s = false -> match_here (map Chr k ++ p) s = None.
Proof.
  revert s; induction k as [|a k IH]; intros s H; [discriminate|].
  destruct s as [|x s]; [reflexivity|].
  simpl in H |- *. rewrite Z.eqb_sym.
  destruct (a =? x); [|reflexivity].
  simpl in H. now rewrite (IH _ H).
Qed.

Lemma match_literal (k r : str) :
  match_here (RegExp_literal k) (k ++ r) = Some (k, [], r).
Proof.
  unfold RegExp_literal.
  rewrite <- (app_nil_r (map Chr k)), match_chars_app. simpl.
  now rewrite app_nil_r.
Qed.

Lemma match_literal_none (k s : str) :
  starts_with k s = false -> match_here (RegExp_literal k) s = None.
Proof.
  intros H. unfold RegExp_literal.
  rewrite <- (app_nil_r (map Chr k)). now apply match_chars_none.
Qed.

(** A template without a dollar sign stands for itself. *)
Lemma expand_plain (tpl m : str) (g : option str) :
  existsb (Z.eqb 36) tpl = false -> expand tpl m g = tpl.
Proof.
  induction tpl as [|x t IH]; intros H; [reflexivity|].
  cbn [existsb] in H. apply orb_false_iff in H as [Hx Ht].
  cbn [expand]. rewrite Z.eqb_sym, Hx. f_equal. now apply IH.
Qed.

Lemma replace_first_unfold (p : regex) (tpl s : str) :
  replace_first p tpl s =
  match match_here p s with
  | Some (m, g, r) => replacement p tpl m g ++ r
  | None =>
      match s with
      | [] => []
      | x :: s' => x :: replace_first p tpl s'
      end
  end.
Proof. destruct s; reflexivity. Qed.

Lemma replace_from_skip (p : regex) (tpl u r : str) :
  replace_from p tpl (List.length u) (u ++ r) = replace_from p tpl 0 r.
Proof. induction u as [|a u IH]; [reflexivity | exact IH]. Qed.

Lemma replace_all_nil (p : regex) (tpl : str) :
  match_here p [] = None -> replace_all p tpl [] = [].
Proof. intros H. unfold replace_all. simpl. now rewrite H. Qed.

Lemma replace_all_match (p : regex) (tpl s m g r : str) :
  match_here p s = Some (m, g, r) -> m <> [] ->
  replace_all p tpl s = replacement p tpl m g ++ replace_all p tpl r.
Proof.
  intros H Hm. pose proof (match_here_sound _ _ _ _ _ H) as ->.
  destruct m as [|y m]; [contradiction|].
  unfold replace_all.
  change ((y :: m) ++ r) with (y :: m ++ r) in *.
  cbn [replace_from]. rewrite H. now rewrite replace_from_skip.
Qed.

Lemma replace_all_nomatch (p : regex) (tpl : str) (x : Z) (s : str) :
  match_here p (x :: s) = None ->
  replace_all p tpl (x :: s) = x :: replace_all p tpl s.
Proof. intros H. unfold replace_all. cbn [replace_from]. now rewrite H. Qed.

(** The three equations of a global replace of the literal text [k],
    non-empty, by a template [c] without a dollar sign. *)
Section LiteralReplace.
Variables k c : str.
Hypothesis k_nonempty : k <> [].
Hypothesis c_plain : existsb (Z.eqb 36) c = false.

Let R := replace_all (RegExp_literal k) c.

Lemma literal_nil : R [] = [].
Proof.
  apply replace_all_nil. apply match_literal_none.
  destruct k; [contradiction | reflexivity].
Qed.

Lemma literal_match (r : str) : R (k ++ r) = c ++ R r.
Proof.
  unfold R. rewrite (replace_all_match _ _ _ _ _ _ (match_literal k r))
    by exact k_nonempty.
  unfold replacement. now rewrite expand_plain.
Qed.

Lemma literal_nomatch (x : Z) (s : str) :
  starts_with k (x :: s) = false -> R (x :: s) = x :: R s.
Proof.
  intros H. apply replace_all_nomatch. now apply match_literal_none.
Qed.
End LiteralReplace.

(** ** The guard on empty content and the simple formats *)

Lemma str_eqb_eq (a b : str) : str_eqb a b = true <-> a = b.
Proof.
  unfold str_eqb. split.
  - intros H. apply andb_true_iff in H as [Hlen Hs].
    apply Nat.eqb_eq in Hlen. apply starts_with_inv in Hs as [r ->].
    rewrite length_app in Hlen.
    destruct r; [now rewrite app_nil_r | simpl in Hlen; lia].
  - intros ->. rewrite Nat.eqb_refl. simpl.
    rewrite <- (app_nil_r b) at 2. apply starts_with_app.
Qed.

Lemma ends_with_app (k a : str) : ends_with k (a ++ k) = true.
Proof. unfold ends_with. rewrite rev_app_distr. apply starts_with_app. Qed.

(** C2: with no SVG content loaded, the converter returns the empty string
    for each of the six formats; it does not throw. *)
Theorem empty_content_returns_empty (f : FormatType) :
  getTransformedCode [] f = Returns [].
Proof. reflexivity. Qed.

(** C1, as stated: for empty content the html and css formats would return
    their wrapper around an empty payload.  They do not: both return the
    empty string. *)
Lemma empty_content_no_boilerplate :
  getTransformedCode [] html <> Returns (html_template [])
  /\ getTransformedCode [] css <> Returns (css_template []).
Proof. split; discriminate. Qed.

(** C1, amended: for empty content html and css return the empty string,
    as every other format does; the wrapper of html and the rule of css
    are produced around the payload of a non-empty content (the css
    payload being the escaped content, when it can be encoded). *)
Theorem boilerplate_only_for_content :
  (getTransformedCode [] html = Returns []
   /\ getTransformedCode [] css = Returns [])
  /\ (forall f, f <> html -> f <> css -> getTransformedCode [] f = Returns [])
  /\ (forall s, s <> [] ->
        getTransformedCode s html = Returns (html_template s)
        /\ forall encoded, encodeURIComponent s = Some encoded ->
             getTransformedCode s css
             = Returns (css_template (escape_quotes encoded))).
Proof.
  split; [split; reflexivity|]. split; [reflexivity|].
  intros s Hs. destruct s as [|x s]; [contradiction|].
  split; [reflexivity|]. intros encoded H.
  unfold getTransformedCode. now rewrite H.
Qed.

Lemma boilerplate_only_for_content_witness :
  getTransformedCode (txt "<svg/>") html = Returns (html_template (txt "<svg/>"))
  /\ getTransformedCode (txt "<svg/>") css
     = Returns (css_template (txt "%3Csvg%2F%3E")).
Proof.
  destruct boilerplate_only_for_content as [_ [_ H]].
  destruct (H (txt "<svg/>")) as [Hh Hc]; [discriminate|].
  split; [exact Hh|]. apply (Hc (txt "%3Csvg%2F%3E")). reflexivity.
Defined.

(** C3: the raw format is the identity: every string is returned as it
    is. *)
Theorem raw_is_identity (s : str) : getTransformedCode s raw = Returns s.
Proof. destruct s; reflexivity. Qed.

(** C4: for the input [<svg stroke-width="2"><path d="M0 0"/></svg>] the
    jsx output is the component template around a text whose opening tag is
    [<svg {...props} fill="currentColor" role="img" strokeWidth="2">]. *)
Theorem jsx_opening_tag_example :
  let input :=
    txt "<svg stroke-width=" ++ q "2" ++ txt "><path d=" ++ q "M0 0"
      ++ txt "/></svg>" in
  let opening_tag :=
    txt "<svg {...props} fill=" ++ q "currentColor" ++ txt " role="
      ++ q "img" ++ txt " strokeWidth=" ++ q "2" ++ txt ">" in
  let rest := txt "<path d=" ++ q "M0 0" ++ txt "/></svg>" in
  convertToReactProps input = opening_tag ++ rest
  /\ getTransformedCode input jsx
     = Returns (txt "const Icon = (props) => (" ++ nl ++ txt "  "
                ++ opening_tag ++ rest ++ nl
                ++ txt ");" ++ nl ++ nl ++ txt "export default Icon;").
Proof. split; vm_compute; reflexivity. Qed.

(** C6, as stated: the jsx output of every input would end with
    [export default Icon;].  The output for the empty input is the empty
    string. *)
Lemma jsx_empty_has_no_export :
  exists out, getTransformedCode [] jsx = Returns out
              /\ ends_with (txt "export default Icon;") out = false.
Proof. exists []. split; reflexivity. Qed.

(** C6, amended: the jsx output of every non-empty input ends with the
    text [export default Icon;]. *)
Theorem jsx_ends_with_export (s : str) :
  s <> [] ->
  exists out, getTransformedCode s jsx = Returns out
              /\ ends_with (txt "export default Icon;") out = true.
Proof.
  intros Hs. destruct s as [|x s]; [contradiction|].
  eexists. split; [reflexivity|].
  unfold jsx_template.
  change component_tail
    with ((nl ++ txt ");" ++ nl ++ nl) ++ txt "export default Icon;").
  rewrite !app_assoc. apply ends_with_app.
Qed.

Lemma jsx_ends_with_export_witness :
  exists out, getTransformedCode (txt "<svg/>") jsx = Returns out
              /\ ends_with (txt "export default Icon;") out = true.
Proof. apply (jsx_ends_with_export (txt "<svg/>")). discriminate. Defined.

(** ** The upload handler *)

(** C8: a file whose declared type is not [image/svg+xml] starts no
    reader; the handler leaves the invalid-file-type message in the state,
    where the page shows it, and the loaded content and the selected format
    are what they were, so the converter's output is unchanged too. *)
Theorem invalid_file_type_keeps_state (file : File) (st : AppState) :
  file_type file <> txt "image/svg+xml" ->
  let st' := fst (handleFileUpload file st) in
  snd (handleFileUpload file st) = None
  /\ error_banner st' = Some invalid_file_type
  /\ svgContent st' = svgContent st
  /\ selectedFormat st' = selectedFormat st
  /\ transformed_code st' = transformed_code st.
Proof.
  intros Htype. unfold handleFileUpload.
  destruct (str_eqb (file_type file) (txt "image/svg+xml")) eqn:E.
  - apply str_eqb_eq in E. contradiction.
  - simpl. repeat split; reflexivity.
Qed.

Lemma invalid_file_type_keeps_state_witness :
  snd (handleFileUpload (mkFile (txt "image/png") (txt "not an svg"))
         (mkState (txt "<svg/>") jsx [] false false)) = None
  /\ error_banner
       (fst (handleFileUpload (mkFile (txt "image/png") (txt "not an svg"))
               (mkState (txt "<svg/>") jsx [] false false)))
     = Some invalid_file_type
  /\ svgContent
       (fst (handleFileUpload (mkFile (txt "image/png") (txt "not an svg"))
               (mkState (txt "<svg/>") jsx [] false false)))
     = txt "<svg/>"
  /\ selectedFormat
       (fst (handleFileUpload (mkFile (txt "image/png") (txt "not an svg"))
               (mkState (txt "<svg/>") jsx [] false false)))
     = jsx
  /\ transformed_code
       (fst (handleFileUpload (mkFile (txt "image/png") (txt "not an svg"))
               (mkState (txt "<svg/>") jsx [] false false)))
     = transformed_code (mkState (txt "<svg/>") jsx [] false false).
Proof.
  apply (invalid_file_type_keeps_state
           (mkFile (txt "image/png") (txt "not an svg"))
           (mkState (txt "<svg/>") jsx [] false false)).
  discriminate.
Defined.

(** ** The splice into the opening svg tag *)

Lemma first_occurrence (c : Z) (s : str) :
  In c s -> exists g post, s = g ++ c :: post /\ ~ In c g.
Proof.
  induction s as [|x s IH]; intros H; [contradiction|].
  destruct (Z.eq_dec x c) as [-> | Hne].
  - exists [], s. split; [reflexivity | intros []].
  - destruct H as [-> | H]; [contradiction|].
    destruct (IH H) as [g [post [-> Hg]]].
    exists (x :: g), post. split; [reflexivity|].
    intros [E | Hin]; [contradiction | now apply Hg].
Qed.

Lemma tag_end_found (g post : str) :
  ~ In 62 g ->
  match_here [NotStar true 62; Chr 62] (g ++ 62 :: post)
  = Some (g ++ [62], g, post).
Proof.
  induction g as [|x g IH]; intros Hg; [reflexivity|].
  assert (Hx : (x =? 62) = false).
  { apply Z.eqb_neq. intros ->. apply Hg. now left. }
  simpl in IH |- *. rewrite Hx, IH; [reflexivity|].
  intros Hin. apply Hg. now right.
Qed.

Lemma tag_end_missing (s : str) :
  ~ In 62 s -> match_here [NotStar true 62; Chr 62] s = None.
Proof.
  induction s as [|x s IH]; intros Hs; [reflexivity|].
  assert (Hx : (x =? 62) = false).
  { apply Z.eqb_neq. intros ->. apply Hs. now left. }
  simpl in IH |- *. rewrite Hx, IH; [reflexivity|].
  intros Hin. apply Hs. now right.
Qed.

Lemma match_svg_tag (g post : str) :
  ~ In 62 g ->
  match_here svg_open_tag (txt "<svg" ++ g ++ 62 :: post)
  = Some (txt "<svg" ++ g ++ [62], g, post).
Proof.
  intros Hg. unfold svg_open_tag.
  now rewrite match_chars_app, tag_end_found.
Qed.

Lemma match_svg_inv (s m g r : str) :
  match_here svg_open_tag s = Some (m, g, r) ->
  s = txt "<svg" ++ g ++ 62 :: r /\ ~ In 62 g
  /\ m = txt "<svg" ++ g ++ [62].
Proof.
  intros H. destruct (starts_with (txt "<svg") s) eqn:E.
  - apply starts_with_inv in E as [s1 ->].
    destruct (in_dec Z.eq_dec 62 s1) as [Hin | Hnot].
    + destruct (first_occurrence _ _ Hin) as [g' [post [-> Hg']]].
      rewrite (match_svg_tag _ _ Hg') in H.
      injection H as <- <- <-. now repeat split.
    + unfold svg_open_tag in H.
      rewrite match_chars_app, (tag_end_missing _ Hnot) in H. discriminate.
  - unfold svg_open_tag in H. now rewrite (match_chars_none _ _ _ E) in H.
Qed.

Lemma match_svg_none (s : str) :
  starts_with (txt "<svg") s = false -> match_here svg_open_tag s = None.
Proof. apply match_chars_none. Qed.

Lemma svg_replacement (m g : str) :
  replacement svg_open_tag svg_open_tag_template m g
  = txt "<svg" ++ svg_splice ++ g ++ [62].
Proof. reflexivity. Qed.

Lemma splice_at_tag (g post : str) :
  ~ In 62 g ->
  splice_props (txt "<svg" ++ g ++ 62 :: post)
  = txt "<svg" ++ svg_splice ++ g ++ 62 :: post.
Proof.
  intros Hg. unfold splice_props.
  rewrite replace_first_unfold, (match_svg_tag _ _ Hg), svg_replacement.
  rewrite <- !app_assoc. reflexivity.
Qed.

(** No match starts before the first occurrence of [<svg]. *)
Lemma splice_skip (pre rest : str) :
  includes (txt "<svg") (pre ++ txt "<sv") = false ->
  splice_props (pre ++ txt "<svg" ++ rest)
  = pre ++ splice_props (txt "<svg" ++ rest).
Proof.
  induction pre as [|x pre IH]; intros H; [reflexivity|].
  change ((x :: pre) ++ txt "<sv") with (x :: pre ++ txt "<sv") in H.
  rewrite includes_cons in H. apply orb_false_iff in H as [Hhere Hlater].
  unfold splice_props in *. rewrite replace_first_unfold.
  rewrite match_svg_none; [simpl; f_equal; now apply IH|].
  change (txt "<svg" ++ rest) with (txt "<sv" ++ [103] ++ rest).
  rewrite app_assoc, starts_with_app_long; [exact Hhere|].
  rewrite length_app. simpl. lia.
Qed.

(** A text without [<svg ... >] is left as it is. *)
Lemma splice_no_tag (t : str) :
  (forall pre g post, t <> pre ++ txt "<svg" ++ g ++ 62 :: post) ->
  splice_props t = t.
Proof.
  induction t as [|x t IH]; intros H; [reflexivity|].
  unfold splice_props in *. rewrite replace_first_unfold.
  destruct (match_here svg_open_tag (x :: t)) as [[[m g] r]|] eqn:E.
  - apply match_svg_inv in E as [E _]. exfalso. exact (H [] g r E).
  - f_equal. apply IH. intros pre g post ->.
    exact (H (x :: pre) g post eq_refl).
Qed.

(** The two results of the splice. *)
Lemma splice_cases (t : str) :
  splice_props t = t
  \/ exists pre g post,
       t = pre ++ txt "<svg" ++ g ++ 62 :: post
       /\ splice_props t = pre ++ txt "<svg" ++ svg_splice ++ g ++ 62 :: post.
Proof.
  induction t as [|x t IH]; [now left|].
  unfold splice_props in *. rewrite replace_first_unfold.
  destruct (match_here svg_open_tag (x :: t)) as [[[m g] r]|] eqn:E.
  - right. apply match_svg_inv in E as [E [_ ->]].
    exists [], g, r. split; [exact E|].
    rewrite svg_replacement, <- !app_assoc. reflexivity.
  - destruct IH as [-> | [pre [g [post [Ht ->]]]]]; [now left|].
    right. exists (x :: pre), g, post. split; [now rewrite Ht | reflexivity].
Qed.

(** ** The attribute renames *)

Lemma str_length_ind (P : str -> Prop) :
  (forall s, (forall t, (List.length t < List.length s)%nat -> P t) -> P s) ->
  forall s, P s.
Proof.
  intros H s. remember (List.length s) as n eqn:Hn. revert s Hn.
  induction n as [n IH] using lt_wf_ind. intros s ->.
  apply H. intros t Ht. exact (IH _ Ht t eq_refl).
Qed.

Lemma lower_is_key_char (s : str) :
  forallb lower s = true -> forallb key_char s = true.
Proof.
  intros H. apply forallb_forall. intros x Hx.
  unfold key_char. now rewrite (proj1 (forallb_forall _ _) H x Hx).
Qed.

Lemma lower_no_hyphen (s : str) : forallb lower s = true -> ~ In 45 s.
Proof.
  intros H Hin. now pose proof (proj1 (forallb_forall _ _) H _ Hin).
Qed.

Lemma key_chars_avoid (u : str) (B : Z) :
  forallb key_char u = true -> key_char B = false -> ~ In B u.
Proof.
  intros Hu HB Hin.
  rewrite (proj1 (forallb_forall _ _) Hu _ Hin) in HB. discriminate.
Qed.

Lemma starts_with_In (k s : str) (x : Z) :
  starts_with k s = true -> In x k -> In x s.
Proof.
  intros H Hx. apply starts_with_inv in H as [r ->].
  apply in_or_app. now left.
Qed.

Lemma tails_In (f : str) (x : Z) (w : str) :
  In (x :: w) (tails (f ++ x :: w)).
Proof.
  induction f as [|y f IH]; simpl; [now left | now right].
Qed.

(** One step of the loop: the key [a-b] with [b = b0 :: b2] is replaced by
    [a], an upper-case letter [B] and [b2]. *)
Section RenameStep.
Variables (a : str) (b0 : Z) (b2 : str) (B : Z).
Hypothesis a_lower : forallb lower a = true.
Hypothesis b0_lower : lower b0 = true.
Hypothesis b2_lower : forallb lower b2 = true.
Hypothesis B_upper : key_char B = false.

Let k : str := a ++ 45 :: b0 :: b2.
Let c : str := a ++ B :: b2.

Hypothesis c_plain : existsb (Z.eqb 36) c = false.

Let R : str -> str := replace_all (RegExp_literal k) c.

Let k_nonempty : k <> [].
Proof. unfold k. now destruct a. Qed.

Lemma key_is_key : forallb key_char k = true /\ In 45 k.
Proof.
  split.
  - unfold k. rewrite forallb_app. cbn [forallb].
    rewrite (lower_is_key_char a a_lower), (lower_is_key_char b2 b2_lower).
    unfold key_char. now rewrite b0_lower.
  - unfold k. apply in_or_app. right. now left.
Qed.

(** A prefix of the result made of key characters is a prefix of the
    input: the result differs from the input only from an upper-case
    letter on. *)
Lemma kept_prefix (s : str) :
  forall u, forallb key_char u = true ->
            starts_with u (R s) = true -> starts_with u s = true.
Proof.
  induction s as [s IH] using str_length_ind. intros u Hu H.
  destruct s as [|x s].
  - unfold R in H. now rewrite literal_nil in H.
  - destruct (starts_with k (x :: s)) eqn:E.
    + apply starts_with_inv in E as [r Er]. rewrite Er in *.
      unfold R in H. rewrite literal_match in H by assumption.
      unfold c in H. rewrite <- app_assoc in H.
      apply starts_with_block in H;
        [|now apply key_chars_avoid].
      unfold k. rewrite <- app_assoc. now apply starts_with_app_l.
    + unfold R in H. rewrite literal_nomatch in H by assumption.
      destruct u as [|y u]; [reflexivity|].
      cbn [forallb] in Hu. apply andb_true_iff in Hu as [_ Hu].
      simpl in H |- *. apply andb_true_iff in H as [-> H]. simpl.
      apply (IH s); [simpl; lia | exact Hu | exact H].
Qed.

(** An occurrence of a key in [c ++ t] lies in [t], or starts in the tail
    of [c] and runs on into [t]. *)
Lemma occurrence_after_replacement (k' t : str) :
  forallb key_char k' = true -> In 45 k' ->
  includes k' (c ++ t) = true ->
  includes k' t = true
  \/ exists l y w u,
       b2 = l ++ y :: w /\ k' = (y :: w) ++ u /\ starts_with u t = true.
Proof.
  intros Hk' Hh H.
  apply includes_app_inv in H as [H | [w1 [y [w2 [Hc H]]]]]; [now left|].
  right. unfold c in Hc. symmetry in Hc.
  apply app_eq_app in Hc as [l [[_ Hl] | [Ha Hl]]].
  - destruct l as [|z l]; simpl in Hl.
    + injection Hl as <- <-.
      destruct k' as [|z k']; [contradiction|].
      simpl in H. apply andb_true_iff in H as [Hz _].
      apply Z.eqb_eq in Hz; subst z.
      cbn [forallb] in Hk'. rewrite B_upper in Hk'. discriminate.
    + injection Hl as <- ->.
      change (y :: w2 ++ t) with ((y :: w2) ++ t) in H.
      apply starts_with_split in H as [H | [u [-> Hu]]].
      * exfalso. apply (lower_no_hyphen _ b2_lower).
        apply in_or_app. right. eapply starts_with_In; eassumption.
      * now exists l, y, w2, u.
  - exfalso. change (y :: w2 ++ t) with ((y :: w2) ++ t) in H.
    rewrite Hl, <- app_assoc in H.
    apply starts_with_block in H; [|now apply key_chars_avoid].
    apply (lower_no_hyphen _ a_lower). rewrite Ha.
    apply in_or_app. right. eapply starts_with_In; eassumption.
Qed.

(** The step creates no occurrence of any key. *)
Lemma no_new_occurrence (k' : str) :
  forallb key_char k' = true -> In 45 k' ->
  forall s, includes k' (R s) = true -> includes k' s = true.
Proof.
  intros Hk' Hh s.
  induction s as [s IH] using str_length_ind. intros H.
  destruct s as [|x s].
  - unfold R in H. now rewrite literal_nil in H.
  - destruct (starts_with k (x :: s)) eqn:E.
    + apply starts_with_inv in E as [r Er]. rewrite Er in *.
      unfold R in H. rewrite literal_match in H by assumption.
      apply occurrence_after_replacement in H
          as [H | [l [y [w [u [Hb [Hku Hu]]]]]]]; try assumption.
      * apply includes_app_r. apply IH; [|exact H].
        rewrite length_app. destruct k; [contradiction | simpl; lia].
      * apply kept_prefix in Hu.
        2:{ rewrite Hku, forallb_app in Hk'.
            now apply andb_true_iff in Hk' as [_ Hk']. }
        apply starts_with_inv in Hu as [r' ->].
        apply includes_iff.
        exists (a ++ 45 :: b0 :: l), r'.
        unfold k. rewrite Hb, Hku. rewrite <- !app_assoc. simpl.
        rewrite <- !app_assoc. reflexivity.
    + unfold R in H. rewrite literal_nomatch in H by assumption.
      rewrite includes_cons in H |- *.
      apply orb_true_iff in H as [H | H].
      * change (x :: replace_all (RegExp_literal k) c s)
          with ([x] ++ R s) in H.
        apply starts_with_split in H as [H | [u [-> Hu]]].
        -- change (x :: s) with ([x] ++ s).
           now rewrite (starts_with_app_l _ _ _ H).
        -- rewrite forallb_app in Hk'.
           apply andb_true_iff in Hk' as [_ Hk'].
           apply kept_prefix in Hu; [|exact Hk'].
           simpl. now rewrite Z.eqb_refl, Hu.
      * rewrite IH; [apply orb_true_r | simpl; lia | exact H].
Qed.

(** The step leaves no occurrence of its own key, the key having no
    border. *)
Lemma key_removed :
  unbordered k = true -> forall s, includes k (R s) = false.
Proof.
  intros Hborder s. apply not_true_is_false.
  destruct key_is_key as [Hkey Hhyphen].
  induction s as [s IH] using str_length_ind. intros H.
  destruct s as [|x s].
  - unfold R in H. rewrite literal_nil in H by assumption.
    simpl in H. rewrite orb_false_r in H.
    destruct k; [contradiction | discriminate].
  - destruct (starts_with k (x :: s)) eqn:E.
    + apply starts_with_inv in E as [r Er]. rewrite Er in *.
      unfold R in H. rewrite literal_match in H by assumption.
      apply occurrence_after_replacement in H
          as [H | [l [y [w [u [Hb [Hku Hu]]]]]]]; try assumption.
      * apply (IH r); [|exact H].
        rewrite length_app. destruct k; [contradiction | simpl; lia].
      * assert (Hin : In (y :: w) (tails (tl k))).
        { unfold k. rewrite Hb.
          replace (tl (a ++ 45 :: b0 :: l ++ y :: w))
            with (tl (a ++ 45 :: b0 :: l) ++ y :: w).
          - apply tails_In.
          - destruct a; simpl; [reflexivity|].
            now rewrite <- app_assoc. }
        unfold unbordered in Hborder.
        pose proof (proj1 (forallb_forall _ _) Hborder _ Hin) as Hw.
        rewrite Hku, starts_with_app in Hw.
        discriminate.
    + unfold R in H. rewrite literal_nomatch in H by assumption.
      rewrite includes_cons in H.
      apply orb_true_iff in H as [H | H].
      * change (x :: replace_all (RegExp_literal k) c s)
          with ([x] ++ R s) in H.
        apply starts_with_split in H as [H | [u [Hku Hu]]].
        -- change (x :: s) with ([x] ++ s) in E.
           now rewrite (starts_with_app_l _ _ _ H) in E.
        -- assert (Hu' : forallb key_char u = true).
           { rewrite Hku, forallb_app in Hkey.
             now apply andb_true_iff in Hkey as [_ Hkey]. }
           apply kept_prefix in Hu; [|exact Hu'].
           rewrite Hku in E. simpl in E.
           now rewrite Z.eqb_refl, Hu in E.
      * apply (IH s); [simpl; lia | exact H].
Qed.
End RenameStep.

(** The table has the shape the step lemmas ask for. *)

Lemma take_lower_split (s : str) :
  s = take_lower s ++ skipn (List.length (take_lower s)) s
  /\ forallb lower (take_lower s) = true.
Proof.
  induction s as [|x s [IH1 IH2]]; [now split|].
  simpl. destruct (lower x) eqn:E; simpl.
  - rewrite E, IH2. split; [now rewrite <- IH1 | reflexivity].
  - now split.
Qed.

Lemma upper_not_key_char (B : Z) : between 65 90 B = true -> key_char B = false.
Proof.
  unfold key_char, lower, between. intros H.
  apply andb_true_iff in H as [H1 H2].
  apply Z.leb_le in H1. apply Z.leb_le in H2.
  apply orb_false_iff. split.
  - apply andb_false_iff. left. apply Z.leb_gt. lia.
  - apply Z.eqb_neq. lia.
Qed.

Lemma entry_shape_spec (e : str * str) :
  entry_shape e = true ->
  exists a b0 b2 B,
    fst e = a ++ 45 :: b0 :: b2 /\ snd e = a ++ B :: b2
    /\ forallb lower a = true /\ lower b0 = true
    /\ forallb lower b2 = true /\ key_char B = false
    /\ existsb (Z.eqb 36) (a ++ B :: b2) = false
    /\ unbordered (a ++ 45 :: b0 :: b2) = true.
Proof.
  unfold entry_shape. intros H.
  destruct (take_lower_split (fst e)) as [Hsplit Hlow].
  destruct (skipn (List.length (take_lower (fst e))) (fst e))
    as [|h [|b0 b2]]; try discriminate.
  repeat (apply andb_true_iff in H as [H ?]).
  apply Z.eqb_eq in H; subst h.
  match goal with E : str_eqb _ _ = true |- _ => apply str_eqb_eq in E end.
  exists (take_lower (fst e)), b0, b2, (b0 - 32).
  repeat split; try assumption.
  - now apply upper_not_key_char.
  - match goal with E : snd e = _ |- _ => rewrite <- E end.
    now apply negb_true_iff.
  - now rewrite <- Hsplit.
Qed.

Lemma attributeMap_shape : forallb entry_shape attributeMap = true.
Proof. vm_compute. reflexivity. Qed.

Lemma entry_key_is_key (e : str * str) :
  entry_shape e = true -> forallb key_char (fst e) = true /\ In 45 (fst e).
Proof.
  intros H.
  destruct (entry_shape_spec e H)
    as [a [b0 [b2 [B [-> [_ [Ha [Hb0 [Hb2 _]]]]]]]]].
  now apply key_is_key.
Qed.

Lemma rename_step_no_new (e : str * str) (k' t : str) :
  entry_shape e = true ->
  forallb key_char k' = true -> In 45 k' ->
  includes k' (rename_step t e) = true -> includes k' t = true.
Proof.
  intros H Hk' Hh.
  destruct (entry_shape_spec e H)
    as [a [b0 [b2 [B [Hk [Hc [Ha [Hb0 [Hb2 [HB [Hp _]]]]]]]]]]].
  unfold rename_step. rewrite Hk, Hc.
  now apply no_new_occurrence.
Qed.

Lemma rename_step_removes (e : str * str) (t : str) :
  entry_shape e = true -> includes (fst e) (rename_step t e) = false.
Proof.
  intros H.
  destruct (entry_shape_spec e H)
    as [a [b0 [b2 [B [Hk [Hc [Ha [Hb0 [Hb2 [HB [Hp Hu]]]]]]]]]]].
  unfold rename_step. rewrite Hk, Hc.
  now apply key_removed.
Qed.

Lemma rename_loop_no_new (entries : list (str * str)) (k' : str) :
  forallb entry_shape entries = true ->
  forallb key_char k' = true -> In 45 k' ->
  forall t, includes k' (fold_left rename_step entries t) = true ->
            includes k' t = true.
Proof.
  intros Hall Hk' Hh.
  induction entries as [|e entries IH]; intros t H; [exact H|].
  cbn [forallb] in Hall. apply andb_true_iff in Hall as [He Hall].
  simpl in H. apply (IH Hall) in H.
  eapply rename_step_no_new; eassumption.
Qed.

(** After the loop no key of the table occurs. *)
Lemma rename_loop_removes (entries : list (str * str)) :
  forallb entry_shape entries = true ->
  forall e, In e entries ->
  forall t, includes (fst e) (fold_left rename_step entries t) = false.
Proof.
  induction entries as [|e0 entries IH]; intros Hall e Hin t;
    [contradiction|].
  cbn [forallb] in Hall. apply andb_true_iff in Hall as [He0 Hall].
  simpl. destruct Hin as [-> | Hin].
  - apply not_true_is_false. intros H.
    destruct (entry_key_is_key e He0) as [Hkey Hh].
    apply (rename_loop_no_new _ _ Hall Hkey Hh) in H.
    now rewrite rename_step_removes in H.
  - now apply IH.
Qed.

(** Neither the splice, nor [trim], nor the component template brings a
    key back. *)

Lemma splice_no_new (k' t : str) :
  forallb key_char k' = true -> In 45 k' ->
  includes k' (splice_props t) = true -> includes k' t = true.
Proof.
  intros Hk' Hh H.
  destruct (splice_cases t) as [E | [pre [g [post [Ht E]]]]];
    rewrite E in H; [exact H|].
  assert (Hne : k' <> []) by (intros ->; contradiction).
  rewrite Ht.
  replace (pre ++ txt "<svg" ++ svg_splice ++ g ++ 62 :: post)
    with ((pre ++ txt "<svg") ++ 32 :: (tl (removelast svg_splice))
            ++ 34 :: g ++ 62 :: post) in H
    by (rewrite <- !app_assoc; reflexivity).
  apply includes_separator in H as [H | H]; try assumption.
  - rewrite app_assoc. now apply includes_app_l.
  - apply includes_separator in H as [H | H]; try assumption.
    + exfalso. apply (includes_In _ _ 45 H) in Hh.
      vm_compute in Hh. intuition discriminate.
    + now apply includes_app_r, includes_app_r.
    + apply key_chars_avoid; [assumption | reflexivity].
  - apply key_chars_avoid; [assumption | reflexivity].
Qed.

Lemma trim_start_suffix (s : str) : exists w, s = w ++ trim_start s.
Proof.
  induction s as [|x s [w IH]]; [now exists []|].
  simpl. destruct (is_white x).
  - exists (x :: w). simpl. now rewrite <- IH.
  - now exists [].
Qed.

Lemma trim_factor (s : str) : exists w1 w2, s = w1 ++ trim s ++ w2.
Proof.
  destruct (trim_start_suffix s) as [w1 H1].
  destruct (trim_start_suffix (rev (trim_start s))) as [w2 H2].
  exists w1, (rev w2). unfold trim, trim_end.
  rewrite <- rev_app_distr, <- H2, rev_involutive. exact H1.
Qed.

Lemma trim_no_new (k' t : str) :
  includes k' (trim t) = true -> includes k' t = true.
Proof.
  intros H. destruct (trim_factor t) as [w1 [w2 Ht]]. rewrite Ht.
  now apply includes_app_r, includes_app_l.
Qed.

Lemma template_no_new (k' head converted : str) :
  forallb key_char k' = true -> In 45 k' ->
  ~ In 45 head ->
  includes k' ((head ++ [32]) ++ converted ++ component_tail) = true ->
  includes k' converted = true.
Proof.
  intros Hk' Hh Hhead H.
  assert (Hne : k' <> []) by (intros ->; contradiction).
  rewrite <- app_assoc in H. simpl in H.
  apply includes_separator in H as [H | H]; try assumption.
  - exfalso. apply Hhead. eapply includes_In; eassumption.
  - change component_tail with (10 :: tl component_tail) in H.
    apply includes_separator in H as [H | H]; try assumption.
    + exfalso. apply (includes_In _ _ 45 H) in Hh.
      vm_compute in Hh. intuition discriminate.
    + apply key_chars_avoid; [assumption | reflexivity].
  - apply key_chars_avoid; [assumption | reflexivity].
Qed.

Lemma converted_has_no_key (s : str) (e : str * str) :
  In e attributeMap -> includes (fst e) (convertToReactProps s) = false.
Proof.
  intros Hin. apply not_true_is_false. intros H.
  assert (He : entry_shape e = true).
  { exact (proj1 (forallb_forall _ _) attributeMap_shape e Hin). }
  destruct (entry_key_is_key e He) as [Hkey Hh].
  unfold convertToReactProps in H.
  apply trim_no_new, splice_no_new in H; try assumption.
  unfold rename_attributes in H.
  now rewrite (rename_loop_removes _ attributeMap_shape e Hin) in H.
Qed.

(** C5: whatever the input, the jsx and the tsx output contain no
    occurrence of a hyphenated name of the rename table. *)
Theorem react_output_has_no_hyphenated_attribute
    (s : str) (f : FormatType) (out old newAttr : str) :
  f = jsx \/ f = tsx ->
  getTransformedCode s f = Returns out ->
  In (old, newAttr) attributeMap ->
  includes old out = false.
Proof.
  intros Hf Hout Hin. apply not_true_is_false. intros H.
  assert (He : entry_shape (old, newAttr) = true).
  { exact (proj1 (forallb_forall _ _) attributeMap_shape _ Hin). }
  destruct (entry_key_is_key _ He) as [Hkey Hh]. simpl in Hkey, Hh.
  destruct s as [|x s].
  - assert (out = []) as -> by (destruct Hf as [-> | ->]; now inversion Hout).
    simpl in H. rewrite orb_false_r in H.
    destruct old; [contradiction | discriminate].
  - pose proof (converted_has_no_key (x :: s) _ Hin) as Hconv.
    cbn [fst] in Hconv.
    destruct Hf as [-> | ->]; unfold getTransformedCode in Hout;
      injection Hout as <-.
    + unfold jsx_template in H.
      change jsx_head with ((removelast jsx_head) ++ [32]) in H.
      apply template_no_new in H; try assumption.
      * now rewrite H in Hconv.
      * vm_compute. intuition discriminate.
    + unfold tsx_template in H.
      change tsx_head with ((removelast tsx_head) ++ [32]) in H.
      apply template_no_new in H; try assumption.
      * now rewrite H in Hconv.
      * vm_compute. intuition discriminate.
Qed.

Lemma react_output_has_no_hyphenated_attribute_witness :
  includes (txt "fill-rule")
    (jsx_template
       (convertToReactProps
          (txt "<svg fill-rule=evenodd><text>fill-rule</text></svg>")))
  = false.
Proof.
  apply (react_output_has_no_hyphenated_attribute
           (txt "<svg fill-rule=evenodd><text>fill-rule</text></svg>")
           jsx _ (txt "fill-rule") (txt "fillRule")).
  - now left.
  - reflexivity.
  - vm_compute. intuition.
Defined.

(** ** Texts a replace leaves alone *)

Lemma replace_all_absent (p : regex) (tpl : str) (c : Z) :
  (forall s m g r, match_here p s = Some (m, g, r) -> In c m) ->
  forall s, ~ In c s -> replace_all p tpl s = s.
Proof.
  intros Hp s. induction s as [|x s IH]; intros Hc.
  - apply replace_all_nil.
    destruct (match_here p []) as [[[m g] r]|] eqn:E; [|reflexivity].
    pose proof (Hp _ _ _ _ E) as Hin.
    apply match_here_sound in E. symmetry in E.
    apply app_eq_nil in E as [-> _]. contradiction.
  - assert (Hnone : match_here p (x :: s) = None).
    { destruct (match_here p (x :: s)) as [[[m g] r]|] eqn:E; [|reflexivity].
      pose proof (Hp _ _ _ _ E) as Hin.
      apply match_here_sound in E. exfalso. apply Hc. rewrite E.
      apply in_or_app. now left. }
    rewrite replace_all_nomatch by exact Hnone.
    f_equal. apply IH. intros Hin. apply Hc. now right.
Qed.

(** ** White space around the input *)

Lemma key_char_not_white (c : Z) : key_char c = true -> is_white c = false.
Proof. unfold key_char, lower, between, is_white. lia. Qed.

Lemma all_white_rev (w : str) : all_white w = true -> all_white (rev w) = true.
Proof.
  unfold all_white. intros H. apply forallb_forall. intros x Hx.
  apply in_rev in Hx. exact (proj1 (forallb_forall _ _) H x Hx).
Qed.

Lemma anchored_white_start (p : regex) (x : Z) (s : str) :
  anchored p = true -> is_white x = true -> match_here p (x :: s) = None.
Proof.
  destruct p as [|[c | cap c] p]; try discriminate.
  simpl. intros Hc Hx. destruct (x =? c) eqn:E; [|reflexivity].
  apply Z.eqb_eq in E; subst x. now rewrite Hx in Hc.
Qed.

Lemma anchored_nil (p : regex) : anchored p = true -> match_here p [] = None.
Proof. destruct p as [|[c | cap c] p]; try discriminate. reflexivity. Qed.

Lemma anchored_white (p : regex) (w : str) :
  anchored p = true -> all_white w = true -> match_here p w = None.
Proof.
  intros Hp Hw. destruct w as [|x w]; [now apply anchored_nil|].
  cbn [all_white forallb] in Hw. apply andb_true_iff in Hw as [Hx _].
  now apply anchored_white_start.
Qed.

Lemma star_white (cap : bool) (c : Z) (p : regex) (w : str) :
  anchored p = true -> all_white w = true ->
  star cap c (match_here p) w = None.
Proof.
  intros Hp. induction w as [|x w IH]; intros Hw.
  - simpl. now apply anchored_nil.
  - pose proof (anchored_white p (x :: w) Hp Hw) as Hnone.
    cbn [all_white forallb] in Hw. apply andb_true_iff in Hw as [_ Hw].
    cbn [star]. rewrite Hnone, (IH Hw). now destruct (x =? c).
Qed.

(** White space after the input changes no match: it is only added to
    what the match leaves. *)
Lemma match_here_pad (p : regex) (w : str) :
  pad_safe p = true -> all_white w = true ->
  forall y, match_here p (y ++ w) = option_map (add_rest w) (match_here p y).
Proof.
  intros Hp Hw. induction p as [|[c | cap c] p IH]; intros y.
  - reflexivity.
  - cbn [pad_safe] in Hp. apply andb_true_iff in Hp as [Hc Hp].
    destruct y as [|x y].
    + simpl. destruct w as [|x w]; [reflexivity|].
      cbn [all_white forallb] in Hw. apply andb_true_iff in Hw as [Hx _].
      destruct (x =? c) eqn:E; [|reflexivity].
      apply Z.eqb_eq in E; subst x. now rewrite Hx in Hc.
    + simpl. destruct (x =? c); [|reflexivity].
      rewrite (IH Hp). now destruct (match_here p y) as [[[m g] r]|].
  - cbn [pad_safe] in Hp. apply andb_true_iff in Hp as [Ha Hp].
    cbn [match_here]. induction y as [|x y IHy].
    + simpl. rewrite star_white by assumption.
      cbn [star]. now rewrite anchored_nil.
    + change ((x :: y) ++ w) with (x :: y ++ w). cbn [star].
      rewrite IHy. change (x :: y ++ w) with ((x :: y) ++ w).
      rewrite (IH Hp). destruct (x =? c); [reflexivity|].
      now destruct (star cap c (match_here p) y) as [[[m g] r]|].
Qed.

Lemma replace_first_pad_front (p : regex) (tpl w z : str) :
  anchored p = true -> all_white w = true ->
  replace_first p tpl (w ++ z) = w ++ replace_first p tpl z.
Proof.
  intros Hp. induction w as [|x w IH]; intros Hw; [reflexivity|].
  cbn [all_white forallb] in Hw. apply andb_true_iff in Hw as [Hx Hw].
  change ((x :: w) ++ z) with (x :: w ++ z).
  rewrite replace_first_unfold, anchored_white_start by assumption.
  simpl. f_equal. now apply IH.
Qed.

Lemma replace_first_pad_back (p : regex) (tpl w : str) :
  anchored p = true -> pad_safe p = true -> all_white w = true ->
  forall y, replace_first p tpl (y ++ w) = replace_first p tpl y ++ w.
Proof.
  intros Ha Hp Hw. induction y as [|x y IH].
  - change ([] ++ w) with w. rewrite <- (app_nil_r w) at 1.
    rewrite replace_first_pad_front by assumption.
    rewrite replace_first_unfold, anchored_nil by assumption.
    simpl. now rewrite app_nil_r.
  - rewrite (replace_first_unfold p tpl (x :: y)).
    rewrite replace_first_unfold, match_here_pad by assumption.
    destruct (match_here p (x :: y)) as [[[m g] r]|]; simpl.
    + now rewrite app_assoc.
    + f_equal. exact IH.
Qed.

Lemma replace_all_pad_front (p : regex) (tpl w z : str) :
  anchored p = true -> all_white w = true ->
  replace_all p tpl (w ++ z) = w ++ replace_all p tpl z.
Proof.
  intros Hp. induction w as [|x w IH]; intros Hw; [reflexivity|].
  cbn [all_white forallb] in Hw. apply andb_true_iff in Hw as [Hx Hw].
  change ((x :: w) ++ z) with (x :: w ++ z).
  rewrite replace_all_nomatch by now apply anchored_white_start.
  simpl. f_equal. now apply IH.
Qed.

Lemma replace_from_pad_back (p : regex) (tpl w : str) :
  anchored p = true -> pad_safe p = true -> all_white w = true ->
  forall y n, (n <= List.length y)%nat ->
    replace_from p tpl n (y ++ w) = replace_from p tpl n y ++ w.
Proof.
  intros Ha Hp Hw. induction y as [|x y IH]; intros n Hn.
  - simpl in Hn. assert (n = O) as -> by lia.
    change (replace_from p tpl 0 ([] ++ w)) with (replace_all p tpl w).
    rewrite <- (app_nil_r w) at 1.
    rewrite replace_all_pad_front by assumption.
    rewrite replace_all_nil by now apply anchored_nil.
    simpl. rewrite (anchored_nil p Ha). now rewrite app_nil_r.
  - change ((x :: y) ++ w) with (x :: y ++ w).
    destruct n as [|n]; cbn [replace_from].
    + change (x :: y ++ w) with ((x :: y) ++ w).
      rewrite match_here_pad by assumption.
      destruct (match_here p (x :: y)) as [[[m g] r]|] eqn:E; simpl.
      * destruct m as [|z m].
        -- rewrite <- app_assoc. simpl. now rewrite IH by lia.
        -- rewrite <- app_assoc. f_equal. apply IH.
           apply match_here_sound in E.
           apply (f_equal (@List.length Z)) in E.
           simpl in E. rewrite length_app in E. lia.
      * f_equal. apply IH. lia.
    + apply IH. simpl in Hn. lia.
Qed.

Lemma replace_all_pad (p : regex) (tpl w1 x w2 : str) :
  anchored p = true -> pad_safe p = true ->
  all_white w1 = true -> all_white w2 = true ->
  replace_all p tpl (w1 ++ x ++ w2) = w1 ++ replace_all p tpl x ++ w2.
Proof.
  intros Ha Hp H1 H2. rewrite replace_all_pad_front by assumption.
  f_equal. unfold replace_all. apply replace_from_pad_back; try assumption.
  lia.
Qed.

Lemma replace_first_pad (p : regex) (tpl w1 x w2 : str) :
  anchored p = true -> pad_safe p = true ->
  all_white w1 = true -> all_white w2 = true ->
  replace_first p tpl (w1 ++ x ++ w2) = w1 ++ replace_first p tpl x ++ w2.
Proof.
  intros Ha Hp H1 H2. rewrite replace_first_pad_front by assumption.
  f_equal. now apply replace_first_pad_back.
Qed.

Lemma literal_pad_safe (k : str) :
  forallb key_char k = true -> k <> [] ->
  anchored (RegExp_literal k) = true /\ pad_safe (RegExp_literal k) = true.
Proof.
  intros Hk Hne. split.
  - destruct k as [|c k]; [contradiction|].
    cbn [forallb] in Hk. apply andb_true_iff in Hk as [Hc _].
    simpl. now rewrite key_char_not_white.
  - clear Hne. induction k as [|c k IH]; [reflexivity|].
    cbn [forallb] in Hk. apply andb_true_iff in Hk as [Hc Hk].
    simpl. now rewrite key_char_not_white, IH.
Qed.

Lemma rename_attributes_pad (w1 x w2 : str) :
  all_white w1 = true -> all_white w2 = true ->
  rename_attributes (w1 ++ x ++ w2) = w1 ++ rename_attributes x ++ w2.
Proof.
  intros H1 H2. unfold rename_attributes.
  pose proof attributeMap_shape as Hshape. revert x.
  induction attributeMap as [|e entries IH]; intros x; [reflexivity|].
  cbn [forallb] in Hshape. apply andb_true_iff in Hshape as [He Hshape].
  destruct (entry_key_is_key e He) as [Hkey Hh].
  destruct (literal_pad_safe (fst e) Hkey) as [Ha Hp].
  { intros E. now rewrite E in Hh. }
  simpl. unfold rename_step at 2 4.
  rewrite replace_all_pad by assumption. now apply IH.
Qed.

Lemma transform_pad (w1 x w2 : str) :
  all_white w1 = true -> all_white w2 = true ->
  transform (w1 ++ x ++ w2) = w1 ++ transform x ++ w2.
Proof.
  intros H1 H2. unfold transform, strip_xml_declaration, splice_props.
  rewrite replace_all_pad by (assumption || reflexivity).
  rewrite rename_attributes_pad by assumption.
  now rewrite replace_first_pad by (assumption || reflexivity).
Qed.

Lemma trim_start_white (w z : str) :
  all_white w = true -> trim_start (w ++ z) = trim_start z.
Proof.
  induction w as [|x w IH]; intros Hw; [reflexivity|].
  cbn [all_white forallb] in Hw. apply andb_true_iff in Hw as [Hx Hw].
  simpl. rewrite Hx. now apply IH.
Qed.

Lemma trim_end_white (z w : str) :
  all_white w = true -> trim_end (z ++ w) = trim_end z.
Proof.
  intros Hw. unfold trim_end. rewrite rev_app_distr.
  now rewrite trim_start_white by now apply all_white_rev.
Qed.

Lemma trim_start_app (y w : str) :
  all_white w = true ->
  trim_start (y ++ w) = trim_start y ++ w
  \/ (trim_start y = [] /\ trim_start (y ++ w) = []).
Proof.
  intros Hw. induction y as [|x y IH].
  - right. split; [reflexivity|].
    rewrite <- (app_nil_r w). simpl. now rewrite trim_start_white.
  - simpl. destruct (is_white x); [exact IH | now left].
Qed.

Lemma trim_pad (w1 y w2 : str) :
  all_white w1 = true -> all_white w2 = true ->
  trim (w1 ++ y ++ w2) = trim y.
Proof.
  intros H1 H2. unfold trim. rewrite trim_start_white by assumption.
  destruct (trim_start_app y w2 H2) as [-> | [-> ->]].
  - now apply trim_end_white.
  - reflexivity.
Qed.

Lemma convertToReactProps_pad (w1 x w2 : str) :
  all_white w1 = true -> all_white w2 = true ->
  convertToReactProps (w1 ++ x ++ w2) = convertToReactProps x.
Proof.
  intros H1 H2. change (trim (transform (w1 ++ x ++ w2)) = trim (transform x)).
  rewrite transform_pad by assumption. now apply trim_pad.
Qed.

(** ** The css data URI *)

Ltac div_mod_lia := Z.div_mod_to_equations; lia.

Lemma if_true {A : Type} (c : bool) (x y : A) :
  c = true -> (if c then x else y) = x.
Proof. now intros ->. Qed.

Lemma if_false {A : Type} (c : bool) (x y : A) :
  c = false -> (if c then x else y) = y.
Proof. now intros ->. Qed.

(** Settle a conditional of the goal whose test [tac] decides. *)
Ltac take_then tac :=
  match goal with
  | |- context [if ?c then _ else _] => rewrite (if_true c) by tac
  end.

Ltac take_else tac :=
  match goal with
  | |- context [if ?c then _ else _] => rewrite (if_false c) by tac
  end.

Lemma hex_digit_value (d : Z) :
  0 <= d < 16 -> hex_value (hex_digit d) = Some d.
Proof.
  intros H. unfold hex_digit.
  destruct (d <? 10) eqn:E; cbv iota; unfold hex_value, between.
  - take_then lia. f_equal. lia.
  - take_else lia. take_then lia. f_equal. lia.
Qed.

Lemma hex_digit_not_quote (d : Z) :
  0 <= d < 16 ->
  (hex_digit d =? 39) = false /\ (hex_digit d =? 34) = false.
Proof. intros H. unfold hex_digit. destruct (d <? 10) eqn:E; cbv iota; lia. Qed.

Lemma read_escape_escape (b : Z) (tail : str) :
  0 <= b < 256 -> read_escape (escape b ++ tail) = Some (b, tail).
Proof.
  intros H. unfold escape. cbn [app read_escape].
  rewrite Z.eqb_refl.
  rewrite (hex_digit_value (b / 16)) by div_mod_lia.
  rewrite (hex_digit_value (b mod 16)) by div_mod_lia.
  replace (16 * (b / 16) + b mod 16) with b by div_mod_lia.
  reflexivity.
Qed.

(** One iteration of [Decode] on an escape sequence. *)
Lemma decode_escape (n : nat) (b : Z) (tail : str) :
  0 <= b < 256 ->
  decode (S n) (escape b ++ tail) =
  if b <? 128 then option_map (cons b) (decode n tail)
  else
    match octet_count b with
    | None => None
    | Some k =>
        match read_continuations (Nat.pred k) tail with
        | None => None
        | Some (bs, r2) =>
            match utf8_decode (b :: bs) with
            | None => None
            | Some v => option_map (app (utf16 v)) (decode n r2)
            end
        end
    end.
Proof.
  intros H. pose proof (read_escape_escape b tail H) as E.
  unfold escape in *. cbn [app] in *. cbn [decode].
  rewrite E. reflexivity.
Qed.

Lemma read_continuations_escapes (bs : list Z) (tail : str) :
  Forall (fun b => 0 <= b < 256) bs ->
  read_continuations (List.length bs) (flat_map escape bs ++ tail)
  = Some (bs, tail).
Proof.
  induction 1 as [|b bs Hb _ IH]; [reflexivity|].
  cbn [flat_map List.length read_continuations].
  rewrite <- app_assoc, read_escape_escape by exact Hb.
  now rewrite IH.
Qed.

Lemma utf8_octets (cp : Z) :
  0 <= cp < 1114112 -> Forall (fun b => 0 <= b < 256) (utf8 cp).
Proof.
  intros H. unfold utf8.
  destruct (cp <? 128) eqn:E1; [|destruct (cp <? 2048) eqn:E2;
    [|destruct (cp <? 65536) eqn:E3]];
    repeat constructor; div_mod_lia.
Qed.

(** The octets of a code point above U+007F: a leading octet that
    announces their number, and a sequence that decodes to the code
    point. *)
Lemma utf8_shape (cp : Z) :
  128 <= cp < 1114112 -> ~ 55296 <= cp <= 57343 ->
  exists b bs,
    utf8 cp = b :: bs /\ 128 <= b < 256
    /\ Forall (fun b => 0 <= b < 256) bs
    /\ octet_count b = Some (S (List.length bs))
    /\ utf8_decode (b :: bs) = Some cp.
Proof.
  intros H Hs. pose proof (utf8_octets cp ltac:(lia)) as Hoct.
  unfold utf8 in *. rewrite (if_false (cp <? 128)) in * by lia.
  destruct (cp <? 2048) eqn:E2; [|destruct (cp <? 65536) eqn:E3].
  - eexists _, _. split; [reflexivity|].
    inversion Hoct as [|? ? Hb Hbs]; subst.
    split; [div_mod_lia|]. split; [exact Hbs|]. split.
    + unfold octet_count, between. take_then div_mod_lia.
      reflexivity.
    + unfold utf8_decode, is_continuation, between.
      take_then div_mod_lia. f_equal. div_mod_lia.
  - eexists _, _. split; [reflexivity|].
    inversion Hoct as [|? ? Hb Hbs]; subst.
    split; [div_mod_lia|]. split; [exact Hbs|]. split.
    + unfold octet_count, between. take_else div_mod_lia.
      take_then div_mod_lia. reflexivity.
    + unfold utf8_decode, is_continuation, between.
      take_then div_mod_lia. f_equal. div_mod_lia.
  - eexists _, _. split; [reflexivity|].
    inversion Hoct as [|? ? Hb Hbs]; subst.
    split; [div_mod_lia|]. split; [exact Hbs|]. split.
    + unfold octet_count, between. take_else div_mod_lia.
      take_else div_mod_lia.
      take_then div_mod_lia. reflexivity.
    + unfold utf8_decode, is_continuation, between.
      take_then div_mod_lia. f_equal. div_mod_lia.
Qed.

(** One iteration of [Decode] gives back the code point whose escapes it
    reads. *)
Lemma decode_code_point (n : nat) (cp : Z) (tail : str) :
  0 <= cp < 1114112 -> ~ 55296 <= cp <= 57343 ->
  decode (S n) (escape_code_point cp ++ tail)
  = option_map (app (utf16 cp)) (decode n tail).
Proof.
  intros H Hs. destruct (Z_lt_le_dec cp 128) as [Hlt | Hge].
  - unfold escape_code_point, utf8. take_then lia.
    cbn [flat_map]. rewrite app_nil_r, decode_escape by lia.
    take_then lia. unfold utf16. take_then lia.
    now destruct (decode n tail).
  - destruct (utf8_shape cp ltac:(lia) Hs)
      as [b [bs [Hu [Hb [Hbs [Hcount Hdec]]]]]].
    unfold escape_code_point. rewrite Hu. cbn [flat_map].
    rewrite <- app_assoc, decode_escape by lia.
    take_else lia. rewrite Hcount. cbn [Nat.pred].
    rewrite read_continuations_escapes by exact Hbs.
    now rewrite Hdec.
Qed.

Lemma utf16_pair (lead trail : Z) :
  is_lead_surrogate lead = true -> is_trail_surrogate trail = true ->
  utf16 (surrogate_pair lead trail) = [lead; trail]
  /\ 0 <= surrogate_pair lead trail < 1114112
  /\ ~ 55296 <= surrogate_pair lead trail <= 57343.
Proof.
  unfold is_lead_surrogate, is_trail_surrogate, between, surrogate_pair, utf16.
  intros Hl Ht. take_else lia.
  split; [|lia]. f_equal; [|f_equal]; div_mod_lia.
Qed.

Lemma escape_code_point_length (cp : Z) :
  (3 <= List.length (escape_code_point cp))%nat.
Proof.
  unfold escape_code_point, utf8.
  destruct (cp <? 128); [|destruct (cp <? 2048); [|destruct (cp <? 65536)]];
    simpl; lia.
Qed.

(** The two replacements after [encodeURIComponent], character by
    character. *)

Lemma replace_all_char (c : Z) (tpl s : str) :
  existsb (Z.eqb 36) tpl = false ->
  replace_all [Chr c] tpl s
  = flat_map (fun x => if x =? c then tpl else [x]) s.
Proof.
  intros Hplain. induction s as [|x s IH].
  - now apply replace_all_nil.
  - cbn [flat_map]. destruct (x =? c) eqn:E.
    + assert (Hm : match_here [Chr c] (x :: s) = Some ([x], [], s)).
      { simpl. now rewrite E. }
      rewrite (replace_all_match _ _ _ _ _ _ Hm) by discriminate.
      unfold replacement. now rewrite expand_plain, IH.
    + rewrite replace_all_nomatch by (simpl; now rewrite E).
      now rewrite IH.
Qed.

Lemma escape_quotes_app (a b : str) :
  escape_quotes (a ++ b) = escape_quotes a ++ escape_quotes b.
Proof.
  unfold escape_quotes. rewrite !replace_all_char by reflexivity.
  now rewrite !flat_map_app.
Qed.

Lemma escape_quotes_other (c : Z) :
  (c =? 39) = false -> (c =? 34) = false -> escape_quotes [c] = [c].
Proof.
  intros H1 H2. unfold escape_quotes.
  rewrite !replace_all_char by reflexivity.
  cbn [flat_map]. rewrite H1. cbn [app flat_map]. now rewrite H2.
Qed.

Lemma escape_quotes_escape (b : Z) :
  0 <= b < 256 -> escape_quotes (escape b) = escape b.
Proof.
  intros H. unfold escape.
  destruct (hex_digit_not_quote (b / 16)) as [H1 H2]; [div_mod_lia|].
  destruct (hex_digit_not_quote (b mod 16)) as [H3 H4]; [div_mod_lia|].
  change [37; hex_digit (b / 16); hex_digit (b mod 16)]
    with ([37] ++ [hex_digit (b / 16)] ++ [hex_digit (b mod 16)]).
  rewrite !escape_quotes_app.
  now rewrite !escape_quotes_other by (assumption || reflexivity).
Qed.

Lemma escape_quotes_code_point (cp : Z) :
  0 <= cp < 1114112 ->
  escape_quotes (escape_code_point cp) = escape_code_point cp.
Proof.
  intros H. unfold escape_code_point.
  induction (utf8_octets cp H) as [|b bs Hb _ IH]; [reflexivity|].
  cbn [flat_map]. now rewrite escape_quotes_app, escape_quotes_escape, IH.
Qed.

Lemma decode_nil (n : nat) : decode n [] = Some [].
Proof. now destruct n. Qed.

(** One iteration of [Decode] on an unreserved character, after the two
    replacements. *)
Lemma decode_unreserved (n : nat) (c : Z) (tail : str) :
  uri_unreserved c = true ->
  decode (S n) (escape_quotes [c] ++ tail)
  = option_map (cons c) (decode n tail)
  /\ (1 <= List.length (escape_quotes [c]))%nat.
Proof.
  intros Hc. destruct (c =? 39) eqn:E.
  - apply Z.eqb_eq in E; subst c. split; [reflexivity | simpl; lia].
  - assert (E2 : (c =? 34) = false).
    { unfold uri_unreserved, between in Hc. lia. }
    assert (E3 : (c =? 37) = false).
    { unfold uri_unreserved, between in Hc. lia. }
    rewrite escape_quotes_other by assumption.
    split; [|simpl; lia]. cbn [app decode]. now rewrite E3.
Qed.

Lemma strip_prefix_app (k r : str) : strip_prefix k (k ++ r) = Some r.
Proof.
  induction k as [|a k IH]; [reflexivity|].
  simpl. now rewrite Z.eqb_refl.
Qed.

Lemma css_payload_template (e : str) : css_payload (css_template e) = Some e.
Proof.
  unfold css_payload, css_template. rewrite strip_prefix_app.
  unfold strip_suffix. rewrite rev_app_distr, strip_prefix_app.
  simpl. now rewrite rev_involutive.
Qed.

(** The escaped text of a well-formed string decodes to the string, with
    fuel as soon as there is one unit of it per code unit. *)
Lemma encode_decode (n : nat) :
  forall s,
    (List.length s <= n)%nat ->
    Forall code_unit s -> isWellFormed s = true ->
    exists e,
      encodeURIComponent s = Some e
      /\ (List.length s <= List.length (escape_quotes e))%nat
      /\ forall m, (List.length s <= m)%nat ->
                   decode m (escape_quotes e) = Some s.
Proof.
  induction n as [n IH] using lt_wf_ind. intros s Hlen Hunits Hwf.
  destruct s as [|c rest].
  - exists []. split; [reflexivity|]. split; [simpl; lia|].
    intros m _. apply decode_nil.
  - inversion Hunits as [|? ? Hc Hrest]; subst.
    unfold code_unit in Hc. cbn [List.length] in Hlen.
    cbn [encodeURIComponent isWellFormed] in *.
    destruct (uri_unreserved c) eqn:Eu.
    + assert (Hwf' : isWellFormed rest = true).
      { unfold uri_unreserved, is_trail_surrogate, is_lead_surrogate,
          between in *.
        rewrite (if_false (_ && _)) in Hwf by lia.
        now rewrite (if_false (_ && _)) in Hwf by lia. }
      destruct (IH (List.length rest) ltac:(lia) rest (le_n _) Hrest Hwf')
        as [e [He [Hle Hd]]].
      exists (c :: e). rewrite He. split; [reflexivity|].
      change (c :: e) with ([c] ++ e). rewrite escape_quotes_app.
      destruct (decode_unreserved 0 c [] Eu) as [_ Hl].
      split; [rewrite length_app; cbn [List.length]; lia|].
      intros [|m] Hm; [cbn [List.length] in Hm; lia|].
      rewrite (proj1 (decode_unreserved m c _ Eu)).
      rewrite Hd by (cbn [List.length] in Hm; lia). reflexivity.
    + destruct (is_trail_surrogate c) eqn:Et; [discriminate|].
      destruct (is_lead_surrogate c) eqn:El.
      * destruct rest as [|c2 rest']; [discriminate|].
        apply andb_true_iff in Hwf as [Et2 Hwf'].
        rewrite Et2.
        inversion Hrest as [|? ? Hc2 Hrest']; subst.
        cbn [List.length] in Hlen.
        destruct (IH (List.length rest') ltac:(lia) rest' (le_n _)
                    Hrest' Hwf') as [e [He [Hle Hd]]].
        destruct (utf16_pair c c2 El Et2) as [Hpair [Hrange Hscalar]].
        exists (escape_code_point (surrogate_pair c c2) ++ e).
        rewrite He. split; [reflexivity|].
        rewrite escape_quotes_app, escape_quotes_code_point by exact Hrange.
        pose proof (escape_code_point_length (surrogate_pair c c2)) as Hl.
        split; [rewrite length_app; cbn [List.length]; lia|].
        intros [|m] Hm; [cbn [List.length] in Hm; lia|].
        rewrite decode_code_point by assumption.
        rewrite Hd by (cbn [List.length] in Hm; lia).
        now rewrite Hpair.
      * assert (Hscalar : ~ 55296 <= c <= 57343).
        { unfold is_trail_surrogate, is_lead_surrogate, between in *. lia. }
        destruct (IH (List.length rest) ltac:(lia) rest (le_n _) Hrest Hwf)
          as [e [He [Hle Hd]]].
        exists (escape_code_point c ++ e).
        rewrite He. split; [reflexivity|].
        rewrite escape_quotes_app, escape_quotes_code_point by lia.
        pose proof (escape_code_point_length c) as Hl.
        split; [rewrite length_app; cbn [List.length]; lia|].
        intros [|m] Hm; [cbn [List.length] in Hm; lia|].
        rewrite decode_code_point by (assumption || lia).
        rewrite Hd by (cbn [List.length] in Hm; lia).
        unfold utf16. now take_then lia.
Qed.

(** C7, as stated: for every input without unpaired surrogate the payload
    of the data URI in the css output would decode to the input.  The css
    output for the empty input is the empty string and holds no data URI. *)
Lemma css_empty_has_no_payload :
  isWellFormed [] = true
  /\ ~ exists code payload,
         getTransformedCode [] css = Returns code
         /\ css_payload code = Some payload
         /\ decodeURIComponent payload = Some [].
Proof.
  split; [reflexivity|].
  intros [code [payload [Hcode [Hpayload _]]]].
  injection Hcode as <-. discriminate Hpayload.
Qed.

(** C7, amended: for every non-empty input, a sequence of code units
    without unpaired surrogate, the css output is the rule around a
    data-URI payload whose percent-decoding is the input. *)
Theorem css_data_uri_round_trip (s : str) :
  s <> [] -> Forall code_unit s -> isWellFormed s = true ->
  exists code payload,
    getTransformedCode s css = Returns code
    /\ css_payload code = Some payload
    /\ decodeURIComponent payload = Some s.
Proof.
  intros Hne Hunits Hwf.
  destruct (encode_decode (List.length s) s (le_n _) Hunits Hwf)
    as [e [He [Hle Hd]]].
  exists (css_template (escape_quotes e)), (escape_quotes e).
  split; [|split].
  - destruct s as [|x s]; [contradiction|].
    unfold getTransformedCode. now rewrite He.
  - apply css_payload_template.
  - unfold decodeURIComponent. now apply Hd.
Qed.

Lemma css_data_uri_round_trip_witness :
  exists code payload,
    getTransformedCode (txt "<a b='c'>" ++ [34; 233; 8364; 55357; 56832]) css
    = Returns code
    /\ css_payload code = Some payload
    /\ decodeURIComponent payload
       = Some (txt "<a b='c'>" ++ [34; 233; 8364; 55357; 56832]).
Proof.
  apply (css_data_uri_round_trip
           (txt "<a b='c'>" ++ [34; 233; 8364; 55357; 56832])).
  - discriminate.
  - repeat constructor; (unfold code_unit; simpl; lia).
  - reflexivity.
Defined.

(* ================================================================= *)
(** * Further properties of the converter *)

(** ** What the converter returns and when it throws *)

Lemma html_template_eq (s : str) :
  html_template s = html_head ++ s ++ html_tail.
Proof. reflexivity. Qed.

Lemma js_template_eq (s : str) : js_template s = js_head ++ s ++ js_tail.
Proof.
  unfold js_template, js_head, js_tail, lines.
  now rewrite <- !app_assoc.
Qed.

Lemma nonempty_head (h x : str) : h <> [] -> h ++ x <> [].
Proof. destruct h; [contradiction | discriminate]. Qed.

Lemma content_gives_text (x : Z) (s : str) (f : FormatType) :
  getTransformedCode (x :: s) f <> Returns [].
Proof.
  intros H. unfold getTransformedCode in H.
  destruct f; try destruct (encodeURIComponent (x :: s));
    try discriminate H; injection H as H; revert H;
    rewrite ?html_template_eq, ?js_template_eq;
    now apply nonempty_head.
Qed.


Lemma unreserved_not_surrogate (c : Z) :
  uri_unreserved c = true ->
  is_trail_surrogate c = false /\ is_lead_surrogate c = false.
Proof.
  unfold uri_unreserved, is_trail_surrogate, is_lead_surrogate, between. lia.
Qed.

Lemma encode_follows_well_formed (n : nat) :
  forall s, (List.length s <= n)%nat ->
    (isWellFormed s = true -> exists e, encodeURIComponent s = Some e)
    /\ (isWellFormed s = false -> encodeURIComponent s = None).
Proof.
  induction n as [n IH] using lt_wf_ind. intros s Hlen.
  destruct s as [|c rest]; [split; [now exists [] | discriminate]|].
  cbn [List.length] in Hlen.
  assert (Hrest : forall t, (List.length t <= List.length rest)%nat ->
            (isWellFormed t = true -> exists e, encodeURIComponent t = Some e)
            /\ (isWellFormed t = false -> encodeURIComponent t = None)).
  { intros t Ht. apply (IH (List.length rest)); lia. }
  cbn [encodeURIComponent isWellFormed].
  destruct (uri_unreserved c) eqn:Eu.
  - destruct (unreserved_not_surrogate c Eu) as [-> ->].
    destruct (Hrest rest (le_n _)) as [Hy Hn]. split; intros H.
    + destruct (Hy H) as [e ->]. now eexists.
    + now rewrite (Hn H).
  - destruct (is_trail_surrogate c); [split; [discriminate | reflexivity]|].
    destruct (is_lead_surrogate c).
    + destruct rest as [|c2 rest']; [split; [discriminate | reflexivity]|].
      destruct (is_trail_surrogate c2);
        [|split; [discriminate | reflexivity]].
      destruct (Hrest rest' ltac:(simpl; lia)) as [Hy Hn].
      simpl. split; intros H.
      * destruct (Hy H) as [e ->]. now eexists.
      * now rewrite (Hn H).
    + destruct (Hrest rest (le_n _)) as [Hy Hn]. split; intros H.
      * destruct (Hy H) as [e ->]. now eexists.
      * now rewrite (Hn H).
Qed.

Lemma encode_none_iff (s : str) :
  encodeURIComponent s = None <-> isWellFormed s = false.
Proof.
  destruct (encode_follows_well_formed (List.length s) s (le_n _)) as [Hy Hn].
  split; [|exact Hn]. intros H.
  destruct (isWellFormed s); [|reflexivity].
  destruct (Hy eq_refl) as [e He]. congruence.
Qed.

Lemma throws_iff_css_and_ill_formed_aux (s : str) :
  isWellFormed s = false -> getTransformedCode s css = URIError.
Proof.
  intros H. apply encode_none_iff in H.
  destruct s as [|x s]; [discriminate|].
  unfold getTransformedCode. now rewrite H.
Qed.

(** X2: the converter throws for the css format on a content with an
    unpaired surrogate, and in no other case. *)
Theorem throws_iff_css_and_ill_formed (s : str) (f : FormatType) :
  getTransformedCode s f = URIError <-> f = css /\ isWellFormed s = false.
Proof.
  split.
  - intros H. destruct s as [|x s]; [discriminate|].
    destruct f; try discriminate H.
    split; [reflexivity|]. apply encode_none_iff.
    unfold getTransformedCode in H.
    now destruct (encodeURIComponent (x :: s)).
  - intros [-> H]. now apply throws_iff_css_and_ill_formed_aux.
Qed.

(** ** The characters of the css payload *)

Lemma hex_digit_unreserved (d : Z) :
  0 <= d < 16 -> uri_unreserved (hex_digit d) = true.
Proof.
  intros H. unfold hex_digit.
  destruct (d <? 10) eqn:E; cbv iota; unfold uri_unreserved, between; lia.
Qed.

Lemma escape_code_point_chars (cp : Z) :
  0 <= cp < 1114112 ->
  Forall (fun c => uri_unreserved c || (c =? 37) = true)
         (escape_code_point cp).
Proof.
  intros H. unfold escape_code_point.
  induction (utf8_octets cp H) as [|b bs Hb _ IH]; [constructor|].
  cbn [flat_map]. apply Forall_app. split; [|exact IH].
  unfold escape. repeat constructor.
  - rewrite hex_digit_unreserved by div_mod_lia. reflexivity.
  - rewrite hex_digit_unreserved by div_mod_lia. reflexivity.
Qed.

(** [encodeURIComponent] returns unreserved characters and percent signs
    only. *)
Lemma encode_chars (n : nat) :
  forall s e,
    (List.length s <= n)%nat -> Forall code_unit s ->
    encodeURIComponent s = Some e ->
    Forall (fun c => uri_unreserved c || (c =? 37) = true) e.
Proof.
  induction n as [n IH] using lt_wf_ind. intros s e Hlen Hunits He.
  destruct s as [|c rest].
  - injection He as <-. constructor.
  - inversion Hunits as [|? ? Hc Hrest]; subst. unfold code_unit in Hc.
    cbn [List.length] in Hlen. cbn [encodeURIComponent] in He.
    destruct (uri_unreserved c) eqn:Eu.
    + destruct (encodeURIComponent rest) as [e'|] eqn:E; [|discriminate].
      injection He as <-. constructor; [now rewrite Eu|].
      apply (IH (List.length rest) ltac:(lia) rest); auto.
    + destruct (is_trail_surrogate c) eqn:Et; [discriminate|].
      destruct (is_lead_surrogate c) eqn:El.
      * destruct rest as [|c2 rest']; [discriminate|].
        destruct (is_trail_surrogate c2) eqn:Et2; [|discriminate].
        destruct (encodeURIComponent rest') as [e'|] eqn:E; [|discriminate].
        injection He as <-.
        inversion Hrest as [|? ? Hc2 Hrest']; subst.
        cbn [List.length] in Hlen.
        destruct (utf16_pair c c2 El Et2) as [_ [Hrange _]].
        apply Forall_app. split; [now apply escape_code_point_chars|].
        apply (IH (List.length rest') ltac:(lia) rest'); auto.
      * destruct (encodeURIComponent rest) as [e'|] eqn:E; [|discriminate].
        injection He as <-.
        apply Forall_app. split; [apply escape_code_point_chars; lia|].
        apply (IH (List.length rest) ltac:(lia) rest); auto.
Qed.

Lemma apostrophes_escaped (e : str) :
  Forall (fun c => uri_unreserved c || (c =? 37) = true) e ->
  forallb payload_char (replace_all [Chr 39] (txt "%27") e) = true.
Proof.
  intros H. rewrite replace_all_char by reflexivity.
  induction H as [|c e Hc _ IH]; [reflexivity|].
  cbn [flat_map]. rewrite forallb_app, IH, andb_true_r.
  destruct (c =? 39) eqn:E; [reflexivity|].
  cbn [forallb]. rewrite andb_true_r. unfold payload_char.
  rewrite E. unfold uri_unreserved, between in *. lia.
Qed.

Lemma no_double_quote_to_replace (x tpl : str) :
  ~ In 34 x -> replace_all [Chr 34] tpl x = x.
Proof.
  apply replace_all_absent. intros s m g r H.
  destruct s as [|z s]; [discriminate|]. simpl in H.
  destruct (z =? 34) eqn:E; [|discriminate].
  injection H as <- _ _. apply Z.eqb_eq in E. now left.
Qed.

Lemma payload_chars_no_quote (x : str) :
  forallb payload_char x = true -> ~ In 34 x /\ ~ In 39 x.
Proof.
  intros H. split; intros Hin;
    now pose proof (proj1 (forallb_forall _ _) H _ Hin).
Qed.

(** X4: on what [encodeURIComponent] returns, the second replace, of the
    double quote, changes nothing: the escaping is that of the apostrophe
    alone. *)
Theorem double_quote_replace_is_identity (s e : str) :
  Forall code_unit s -> encodeURIComponent s = Some e ->
  escape_quotes e = replace_all [Chr 39] (txt "%27") e.
Proof.
  intros Hunits He. unfold escape_quotes.
  apply no_double_quote_to_replace.
  apply payload_chars_no_quote, apostrophes_escaped.
  exact (encode_chars _ s e (le_n _) Hunits He).
Qed.

Lemma double_quote_replace_is_identity_witness :
  escape_quotes (txt "%3Ca%20b%3D'c'%3E%22")
  = replace_all [Chr 39] (txt "%27") (txt "%3Ca%20b%3D'c'%3E%22").
Proof.
  apply (double_quote_replace_is_identity (txt "<a b='c'>" ++ [34])).
  - repeat constructor; (unfold code_unit; simpl; lia).
  - reflexivity.
Defined.

(** X3: the data-URI payload of a css output is made of letters, digits,
    the marks [-_.!~*()] and the percent sign: it holds neither a double
    quote nor an apostrophe, whatever the content holds. *)
Theorem css_payload_is_quote_free (s code payload : str) :
  Forall code_unit s ->
  getTransformedCode s css = Returns code ->
  css_payload code = Some payload ->
  forallb payload_char payload = true
  /\ ~ In 34 payload /\ ~ In 39 payload.
Proof.
  intros Hunits Hcode Hpayload.
  assert (H : forallb payload_char payload = true).
  { destruct s as [|x s].
    - injection Hcode as <-. discriminate Hpayload.
    - unfold getTransformedCode in Hcode.
      destruct (encodeURIComponent (x :: s)) as [e|] eqn:He; [|discriminate].
      injection Hcode as <-. rewrite css_payload_template in Hpayload.
      injection Hpayload as <-.
      pose proof (encode_chars _ _ e (le_n _) Hunits He) as Hchars.
      unfold escape_quotes.
      rewrite no_double_quote_to_replace;
        [now apply apostrophes_escaped|].
      now apply payload_chars_no_quote, apostrophes_escaped. }
  split; [exact H | now apply payload_chars_no_quote].
Qed.

Lemma css_payload_is_quote_free_witness :
  forallb payload_char (txt "%3Ca%20b%3D%27c%27%3E%22") = true
  /\ ~ In 34 (txt "%3Ca%20b%3D%27c%27%3E%22")
  /\ ~ In 39 (txt "%3Ca%20b%3D%27c%27%3E%22").
Proof.
  apply (css_payload_is_quote_free (txt "<a b='c'>" ++ [34])
           (css_template (txt "%3Ca%20b%3D%27c%27%3E%22"))).
  - repeat constructor; (unfold code_unit; simpl; lia).
  - reflexivity.
  - reflexivity.
Defined.

(** ** Outputs that determine the content *)

(** X5: the raw, the html and the js output determine the content: two
    contents with the same output are the same. *)
Theorem verbatim_formats_are_injective (s s' : str) (f : FormatType) :
  f = raw \/ f = html \/ f = js ->
  getTransformedCode s f = getTransformedCode s' f -> s = s'.
Proof.
  intros Hf H. destruct s as [|x s], s' as [|y s']; [reflexivity | | |].
  - symmetry in H. now apply content_gives_text in H.
  - now apply content_gives_text in H.
  - unfold getTransformedCode in H.
    destruct Hf as [-> | [-> | ->]].
    + congruence.
    + assert (E : html_template (x :: s) = html_template (y :: s'))
        by congruence.
      rewrite !html_template_eq in E.
      apply app_inv_head in E. now apply app_inv_tail in E.
    + assert (E : js_template (x :: s) = js_template (y :: s'))
        by congruence.
      rewrite !js_template_eq in E.
      apply app_inv_head in E. now apply app_inv_tail in E.
Qed.

Lemma verbatim_formats_are_injective_witness :
  txt " <svg/>" = txt " " ++ txt "<svg/>".
Proof.
  apply (verbatim_formats_are_injective
           (txt " <svg/>") (txt " " ++ txt "<svg/>") html).
  - right. now left.
  - reflexivity.
Defined.

(** X6: the css output determines the content too: two sequences of code
    units with the same css code are the same. *)
Theorem css_is_injective (s s' code : str) :
  Forall code_unit s -> Forall code_unit s' ->
  getTransformedCode s css = Returns code ->
  getTransformedCode s' css = Returns code ->
  s = s'.
Proof.
  intros Hu Hu' H H'.
  destruct s as [|x s], s' as [|y s']; [reflexivity | | |].
  - injection H as <-. now apply content_gives_text in H'.
  - injection H' as <-. now apply content_gives_text in H.
  - assert (Hwf : forall t, getTransformedCode t css = Returns code ->
                            isWellFormed t = true).
    { intros t Ht. destruct (isWellFormed t) eqn:E; [reflexivity|].
      assert (Hthrow : getTransformedCode t css = URIError)
        by now apply throws_iff_css_and_ill_formed_aux.
      congruence. }
    destruct (encode_decode _ _ (le_n _) Hu (Hwf _ H)) as [e [He [Hl Hd]]].
    destruct (encode_decode _ _ (le_n _) Hu' (Hwf _ H')) as [e' [He' [Hl' Hd']]].
    unfold getTransformedCode in H, H'. rewrite He in H. rewrite He' in H'.
    assert (E : css_template (escape_quotes e')
                = css_template (escape_quotes e)) by congruence.
    unfold css_template in E.
    apply app_inv_head in E. apply app_inv_tail in E.
    specialize (Hd (List.length (escape_quotes e) + List.length (escape_quotes e'))%nat
                   ltac:(lia)).
    specialize (Hd' (List.length (escape_quotes e) + List.length (escape_quotes e'))%nat
                    ltac:(lia)).
    rewrite E in Hd'. congruence.
Qed.

Lemma css_is_injective_witness :
  txt "<svg/>" = txt "<svg" ++ txt "/>".
Proof.
  apply (css_is_injective (txt "<svg/>") (txt "<svg" ++ txt "/>")
           (css_template (txt "%3Csvg%2F%3E"))).
  - repeat constructor; (unfold code_unit; simpl; lia).
  - repeat constructor; (unfold code_unit; simpl; lia).
  - reflexivity.
  - reflexivity.
Defined.

(** ** The XML declaration *)

Lemma declaration_end_found (g rest : str) :
  ~ In 63 g ->
  match_here [NotStar false 63; Chr 63; Chr 62] (g ++ txt "?>" ++ rest)
  = Some (g ++ txt "?>", [], rest).
Proof.
  induction g as [|x g IH]; intros Hg; [reflexivity|].
  assert (Hx : (x =? 63) = false).
  { apply Z.eqb_neq. intros ->. apply Hg. now left. }
  simpl in IH |- *. rewrite Hx, IH; [reflexivity|].
  intros Hin. apply Hg. now right.
Qed.

Lemma match_declaration (g rest : str) :
  ~ In 63 g ->
  match_here xml_declaration (declaration g ++ rest)
  = Some (declaration g, [], rest).
Proof.
  intros Hg. unfold xml_declaration, declaration.
  rewrite <- !app_assoc.
  now rewrite match_chars_app, declaration_end_found.
Qed.

Lemma strip_leading_declaration (g rest : str) :
  ~ In 63 g ->
  strip_xml_declaration (declaration g ++ rest) = strip_xml_declaration rest.
Proof.
  intros Hg. unfold strip_xml_declaration.
  rewrite (replace_all_match _ _ _ _ _ _ (match_declaration g rest Hg));
    [reflexivity | discriminate].
Qed.

(** X7: an XML declaration in front of the content, from [<?xml] to the
    next [?>] with no question mark in between, leaves no trace in the jsx
    and tsx output: the output is that of the content after it, when there
    is such content. *)
Theorem leading_declaration_is_dropped (g rest : str) :
  ~ In 63 g ->
  convertToReactProps (declaration g ++ rest) = convertToReactProps rest
  /\ (rest <> [] ->
      getTransformedCode (declaration g ++ rest) jsx
      = getTransformedCode rest jsx
      /\ getTransformedCode (declaration g ++ rest) tsx
         = getTransformedCode rest tsx).
Proof.
  intros Hg.
  assert (E : convertToReactProps (declaration g ++ rest)
              = convertToReactProps rest).
  { unfold convertToReactProps. now rewrite strip_leading_declaration. }
  split; [exact E|]. intros Hrest.
  destruct rest as [|x rest]; [contradiction|].
  change (declaration g ++ x :: rest)
    with (60 :: tl (declaration g) ++ x :: rest) in *.
  unfold getTransformedCode. now rewrite E.
Qed.

Lemma leading_declaration_is_dropped_witness :
  convertToReactProps (declaration (txt " version='1.0'") ++ txt "<svg/>")
  = convertToReactProps (txt "<svg/>")
  /\ getTransformedCode (declaration (txt " version='1.0'") ++ txt "<svg/>") jsx
     = getTransformedCode (txt "<svg/>") jsx.
Proof.
  destruct (leading_declaration_is_dropped (txt " version='1.0'") (txt "<svg/>"))
    as [H1 H2].
  - vm_compute. intuition discriminate.
  - split; [exact H1|]. apply H2. discriminate.
Defined.

(** ** The renames, once more *)

Section LiteralLocality.
Variables k c : str.
Hypothesis k_nonempty : k <> [].
Hypothesis c_plain : existsb (Z.eqb 36) c = false.

Let R := replace_all (RegExp_literal k) c.

(** A text in which [k] does not occur is left as it is. *)
Lemma literal_absent (s : str) : includes k s = false -> R s = s.
Proof.
  induction s as [|x s IH]; intros H.
  - now apply literal_nil.
  - rewrite includes_cons in H. apply orb_false_iff in H as [H1 H2].
    unfold R. rewrite literal_nomatch by assumption.
    f_equal. now apply IH.
Qed.

(** A character that is not in [k] splits the replace in two. *)
Lemma literal_separator (sep : Z) (y : str) :
  ~ In sep k -> forall x : str, R (x ++ sep :: y) = R x ++ sep :: R y.
Proof.
  intros Hsep x. induction x as [x IH] using str_length_ind.
  destruct x as [|x0 x].
  - unfold R. rewrite literal_nil by assumption. cbn [app].
    rewrite literal_nomatch; [reflexivity|].
    destruct k as [|a k']; [contradiction|].
    simpl. destruct (a =? sep) eqn:E; [|reflexivity].
    apply Z.eqb_eq in E. exfalso. apply Hsep. now left.
  - destruct (starts_with k (x0 :: x)) eqn:E.
    + apply starts_with_inv in E as [r Er]. rewrite Er.
      rewrite <- app_assoc. unfold R.
      rewrite !literal_match by assumption.
      rewrite <- app_assoc. f_equal. apply IH.
      rewrite Er, length_app. destruct k; [contradiction | simpl; lia].
    + assert (E' : starts_with k ((x0 :: x) ++ sep :: y) = false).
      { apply not_true_is_false. intros H.
        apply starts_with_block in H; [congruence | exact Hsep]. }
      unfold R. change ((x0 :: x) ++ sep :: y) with (x0 :: x ++ sep :: y) in *.
      rewrite !literal_nomatch by assumption.
      simpl. f_equal. apply IH. simpl. lia.
Qed.
End LiteralLocality.

Lemma entry_literal (e : str * str) :
  entry_shape e = true ->
  fst e <> [] /\ existsb (Z.eqb 36) (snd e) = false.
Proof.
  intros H.
  destruct (entry_shape_spec e H)
    as [a [b0 [b2 [B [-> [-> [_ [_ [_ [_ [Hp _]]]]]]]]]]].
  split; [now destruct a | exact Hp].
Qed.

Lemma rename_loop_absent (entries : list (str * str)) (s : str) :
  forallb entry_shape entries = true ->
  (forall e, In e entries -> includes (fst e) s = false) ->
  fold_left rename_step entries s = s.
Proof.
  induction entries as [|e entries IH]; intros Hshape Habsent; [reflexivity|].
  cbn [forallb] in Hshape. apply andb_true_iff in Hshape as [He Hshape].
  destruct (entry_literal e He) as [Hk Hc].
  simpl. unfold rename_step at 2.
  rewrite literal_absent by (assumption || (apply Habsent; now left)).
  apply IH; [exact Hshape|]. intros e' He'. apply Habsent. now right.
Qed.

Lemma rename_loop_separator (entries : list (str * str)) (sep : Z) :
  forallb entry_shape entries = true -> key_char sep = false ->
  forall x y,
    fold_left rename_step entries (x ++ sep :: y)
    = fold_left rename_step entries x ++ sep :: fold_left rename_step entries y.
Proof.
  intros Hshape Hsep.
  induction entries as [|e entries IH]; intros x y; [reflexivity|].
  cbn [forallb] in Hshape. apply andb_true_iff in Hshape as [He Hshape].
  destruct (entry_literal e He) as [Hk Hc].
  destruct (entry_key_is_key e He) as [Hkey _].
  simpl. unfold rename_step at 2 4 6.
  rewrite literal_separator
    by (assumption || now apply key_chars_avoid).
  now apply IH.
Qed.

(** X8: a text in which no key of the table occurs goes through the
    renames unchanged. *)
Theorem rename_leaves_other_text (s : str) :
  (forall old newAttr, In (old, newAttr) attributeMap ->
                       includes old s = false) ->
  rename_attributes s = s.
Proof.
  intros H. apply rename_loop_absent; [exact attributeMap_shape|].
  intros [old newAttr] Hin. exact (H old newAttr Hin).
Qed.

Lemma rename_leaves_other_text_witness :
  rename_attributes (txt "<svg width=1 data-stroke=red stroke=x/>")
  = txt "<svg width=1 data-stroke=red stroke=x/>".
Proof.
  apply (rename_leaves_other_text
           (txt "<svg width=1 data-stroke=red stroke=x/>")).
  intros old newAttr Hin.
  assert (Hall : forallb
            (fun e => negb (includes (fst e)
                              (txt "<svg width=1 data-stroke=red stroke=x/>")))
            attributeMap = true) by (vm_compute; reflexivity).
  apply negb_true_iff.
  exact (proj1 (forallb_forall _ _) Hall (old, newAttr) Hin).
Defined.

(** X9: the renames are idempotent: renaming a renamed text changes
    nothing. *)
Theorem rename_is_idempotent (s : str) :
  rename_attributes (rename_attributes s) = rename_attributes s.
Proof.
  apply rename_loop_absent; [exact attributeMap_shape|].
  intros e Hin. unfold rename_attributes.
  now apply rename_loop_removes; [exact attributeMap_shape|].
Qed.

Lemma rename_is_local_aux (x : str) (sep : Z) (y : str) :
  key_char sep = false ->
  rename_attributes (x ++ sep :: y)
  = rename_attributes x ++ sep :: rename_attributes y.
Proof.
  intros Hsep. unfold rename_attributes.
  now apply rename_loop_separator; [exact attributeMap_shape|].
Qed.

(** X10: the renames never reach across a character that is neither a
    lower-case letter nor a hyphen: the text before it and the text after
    it are renamed on their own. *)
Theorem rename_is_local (x : str) (sep : Z) (y : str) :
  key_char sep = false ->
  rename_attributes (x ++ sep :: y)
  = rename_attributes x ++ sep :: rename_attributes y.
Proof.
  exact (rename_is_local_aux x sep y).
Qed.

Lemma rename_is_local_witness :
  rename_attributes (txt "<path fill-rule" ++ 61 :: txt "evenodd stroke-width")
  = rename_attributes (txt "<path fill-rule")
      ++ 61 :: rename_attributes (txt "evenodd stroke-width").
Proof.
  apply (rename_is_local (txt "<path fill-rule") 61
           (txt "evenodd stroke-width")).
  reflexivity.
Defined.

Lemma table_renames_keys :
  forallb (fun e => str_eqb (rename_attributes (fst e)) (snd e)) attributeMap
  = true.
Proof. vm_compute. reflexivity. Qed.

(** X11: a name of the table that stands between two characters that are
    neither lower-case letters nor hyphens, as an attribute name does
    between a space and an equals sign, is replaced by its camelCase form,
    whatever the other entries of the table are and wherever it stands. *)
Theorem delimited_attribute_is_renamed
    (old newAttr x : str) (before after : Z) (y : str) :
  In (old, newAttr) attributeMap ->
  key_char before = false -> key_char after = false ->
  rename_attributes (x ++ before :: old ++ after :: y)
  = rename_attributes x ++ before :: newAttr ++ after :: rename_attributes y.
Proof.
  intros Hin Hb Ha.
  pose proof (proj1 (forallb_forall _ _) table_renames_keys _ Hin) as E.
  apply str_eqb_eq in E. cbn [fst snd] in E.
  rewrite (rename_is_local_aux x before _ Hb).
  rewrite (rename_is_local_aux old after _ Ha).
  now rewrite E.
Qed.

Lemma delimited_attribute_is_renamed_witness :
  rename_attributes
    (txt "<path" ++ 32 :: txt "stroke-dasharray" ++ 61 :: txt "4 stop-color=red/>")
  = rename_attributes (txt "<path")
      ++ 32 :: txt "strokeDasharray"
      ++ 61 :: rename_attributes (txt "4 stop-color=red/>").
Proof.
  apply (delimited_attribute_is_renamed
           (txt "stroke-dasharray") (txt "strokeDasharray")
           (txt "<path") 32 61 (txt "4 stop-color=red/>")).
  - vm_compute. intuition.
  - reflexivity.
  - reflexivity.
Defined.

(** ** The ends of the embedded text *)

Lemma trim_start_head (s : str) (c : Z) (r : str) :
  trim_start s = c :: r -> is_white c = false.
Proof.
  induction s as [|x s IH]; [discriminate|].
  simpl. destruct (is_white x) eqn:E; [exact IH|].
  intros H. injection H as <- _. exact E.
Qed.

Lemma trim_start_keeps_last (u : str) (c : Z) :
  is_white c = false -> exists v, trim_start (u ++ [c]) = v ++ [c].
Proof.
  intros Hc. induction u as [|x u IH].
  - exists []. simpl. now rewrite Hc.
  - simpl. destruct (is_white x); [exact IH|]. now exists (x :: u).
Qed.

Lemma trim_ends (t : str) (c : Z) (r : str) :
  trim t = c :: r ->
  is_white c = false /\ is_white (last (c :: r) c) = false.
Proof.
  unfold trim, trim_end.
  destruct (trim_start t) as [|a u] eqn:Eu; [discriminate|].
  pose proof (trim_start_head _ _ _ Eu) as Ha.
  cbn [rev]. destruct (trim_start_keeps_last (rev u) a Ha) as [v Ev].
  rewrite Ev, rev_app_distr. cbn [rev app]. intros H.
  injection H as <- <-. split; [exact Ha|].
  destruct v as [|d v]; [exact Ha|].
  apply trim_start_head in Ev.
  cbn [rev]. change (a :: rev v ++ [d]) with ((a :: rev v) ++ [d]).
  now rewrite last_last.
Qed.

(** X12: the text embedded in the jsx and the tsx template, when it is
    not empty, neither starts nor ends with a white-space character. *)
Theorem embedded_text_has_no_outer_white_space (s : str) (c : Z) (r : str) :
  convertToReactProps s = c :: r ->
  is_white c = false /\ is_white (last (c :: r) c) = false.
Proof. unfold convertToReactProps. apply trim_ends. Qed.

Lemma embedded_text_has_no_outer_white_space_witness :
  is_white 60 = false
  /\ is_white (last (60 :: tl (convertToReactProps (txt " <g/> "))) 60) = false.
Proof.
  apply (embedded_text_has_no_outer_white_space (txt " <g/> ")).
  reflexivity.
Defined.

(** X13: a content of white space only is not the empty content: its jsx
    and tsx output is the component template around an empty text. *)
Theorem white_content_gives_empty_component (s : str) :
  s <> [] -> all_white s = true ->
  getTransformedCode s jsx = Returns (jsx_head ++ component_tail)
  /\ getTransformedCode s tsx = Returns (tsx_head ++ component_tail).
Proof.
  intros Hs Hw.
  assert (E : convertToReactProps s = []).
  { rewrite <- (app_nil_r s).
    change (s ++ []) with (s ++ [] ++ []).
    now rewrite convertToReactProps_pad. }
  destruct s as [|x s]; [contradiction|].
  unfold getTransformedCode, jsx_template, tsx_template.
  now rewrite E.
Qed.

Lemma white_content_gives_empty_component_witness :
  getTransformedCode [32; 10] jsx = Returns (jsx_head ++ component_tail)
  /\ getTransformedCode [32; 10] tsx = Returns (tsx_head ++ component_tail).
Proof.
  apply (white_content_gives_empty_component [32; 10]);
    [discriminate | reflexivity].
Defined.

(* ================================================================= *)
(** * Properties of the component *)

(** X14: a file whose declared type is [image/svg+xml] starts a reader and
    clears the error message; until the reader fires, the content is what
    it was; once it has fired, the content is the text of the file, the
    format is raw, and the converter shows that text. *)
Theorem accepted_file_is_loaded_as_raw (file : File) (st : AppState) :
  file_type file = txt "image/svg+xml" ->
  snd (handleFileUpload file st) = Some (file_text file)
  /\ error_banner (fst (handleFileUpload file st)) = None
  /\ svgContent (fst (handleFileUpload file st)) = svgContent st
  /\ selectedFormat (fst (handleFileUpload file st)) = selectedFormat st
  /\ svgContent (reader_onload (file_text file) (fst (handleFileUpload file st)))
     = file_text file
  /\ selectedFormat
       (reader_onload (file_text file) (fst (handleFileUpload file st)))
     = raw
  /\ transformed_code
       (reader_onload (file_text file) (fst (handleFileUpload file st)))
     = Returns (file_text file).
Proof.
  intros Htype. unfold handleFileUpload.
  rewrite (proj2 (str_eqb_eq _ _) Htype). cbn [negb fst snd].
  repeat split.
  unfold transformed_code, reader_onload. cbn [svgContent selectedFormat
    setSelectedFormat setSvgContent].
  now destruct (file_text file).
Qed.

Lemma accepted_file_is_loaded_as_raw_witness :
  transformed_code
    (reader_onload (txt "<svg/>")
       (fst (handleFileUpload (mkFile (txt "image/svg+xml") (txt "<svg/>"))
               (mkState (txt "<old/>") css invalid_file_type false false))))
  = Returns (txt "<svg/>").
Proof.
  apply (accepted_file_is_loaded_as_raw
           (mkFile (txt "image/svg+xml") (txt "<svg/>"))
           (mkState (txt "<old/>") css invalid_file_type false false)).
  reflexivity.
Defined.


Lemma upload_result (file : File) (st : AppState) :
  handleFileUpload file st
  = if is_svg_file file
    then (setErrorMessage [] st, Some (file_text file))
    else (setErrorMessage invalid_file_type (setErrorMessage [] st), None).
Proof.
  unfold handleFileUpload, is_svg_file.
  now destruct (str_eqb (file_type file) (txt "image/svg+xml")).
Qed.


Lemma upload_error (file : File) (st : AppState) :
  errorMessage (fst (handleFileUpload file st))
  = if is_svg_file file then [] else invalid_file_type.
Proof.
  unfold handleFileUpload, is_svg_file.
  now destruct (str_eqb (file_type file) (txt "image/svg+xml")).
Qed.





Lemma step_error (e : Event) (sys : System) :
  errorMessage (component (step e sys))
  = match offered e with
    | Some file => if is_svg_file file then [] else invalid_file_type
    | None => errorMessage (component sys)
    end.
Proof.
  destruct e as [files | files | | | i | f | ok | | ]; cbn [step offered];
    try reflexivity.
  - destruct files as [|file files]; [reflexivity|]. apply upload_error.
  - destruct files as [|file files]; [reflexivity|]. apply upload_error.
  - now destruct (nth_error (readers sys) i).
  - destruct (buttons_disabled (component sys)); [reflexivity|].
    unfold handleCopy.
    destruct (transformed_code (component sys)); [|reflexivity].
    now destruct ok.
Qed.

Lemma run_error (events : list Event) :
  forall (sys : System) (last : option File),
    errorMessage (component sys)
    = match last with
      | Some file => if is_svg_file file then [] else invalid_file_type
      | None => []
      end ->
    errorMessage (component (run events sys))
    = match fold_left (fun last e =>
                         match offered e with
                         | Some file => Some file
                         | None => last
                         end) events last with
      | Some file => if is_svg_file file then [] else invalid_file_type
      | None => []
      end.
Proof.
  induction events as [|e events IH]; intros sys last H; [exact H|].
  change (run (e :: events) sys) with (run events (step e sys)).
  cbn [fold_left]. apply IH. rewrite step_error.
  now destruct (offered e).
Qed.

(** X16: whatever the events, the error message is decided by the last
    file handed to the upload handler: it is the invalid-file-type message
    when that file had another type than [image/svg+xml], and empty when
    it had this type or when no file was handed over yet.  No other event
    sets or clears it. *)
Theorem error_message_follows_last_file (events : list Event) :
  errorMessage (component (run events initial_system))
  = match last_offered events with
    | Some file => if is_svg_file file then [] else invalid_file_type
    | None => []
    end.
Proof. now apply run_error. Qed.

(** ** Labels and file names *)

(** X17: every format has its own label in [formats]: the fallback text
    of [getFormatLabel] is never shown, and two formats never share a
    label. *)
Theorem every_format_has_its_label (f g : FormatType) :
  getFormatLabel f <> txt "Code Viewer"
  /\ (getFormatLabel f = getFormatLabel g -> f = g).
Proof.
  split.
  - destruct f; discriminate.
  - destruct f, g; (reflexivity || discriminate).
Qed.

(** X18: the name of a downloaded file tells the format: two downloads
    under the same name were made with the same format selected; and the
    text downloaded is the text the converter shows. *)
Theorem download_name_tells_format
    (st st' : AppState) (name code code' : str) :
  handleDownload st = Some (name, code) ->
  handleDownload st' = Some (name, code') ->
  selectedFormat st = selectedFormat st'
  /\ transformed_code st = Returns code.
Proof.
  unfold handleDownload. intros H H'.
  destruct (transformed_code st) as [c|]; [|discriminate].
  destruct (transformed_code st') as [c'|]; [|discriminate].
  injection H as Hn <-. injection H' as Hn' _.
  split; [|reflexivity].
  rewrite <- Hn in Hn'. injection Hn' as Hn'.
  destruct (selectedFormat st), (selectedFormat st');
    (reflexivity || discriminate).
Qed.

Lemma download_name_tells_format_witness :
  selectedFormat (mkState (txt "<svg/>") raw [] false false)
  = selectedFormat (mkState (txt "<g/>") raw [] true false)
  /\ transformed_code (mkState (txt "<svg/>") raw [] false false)
     = Returns (txt "<svg/>").
Proof.
  apply (download_name_tells_format
           (mkState (txt "<svg/>") raw [] false false)
           (mkState (txt "<g/>") raw [] true false)
           (txt "icon.svg") (txt "<svg/>") (txt "<g/>"));
    reflexivity.
Defined.

(** ** A reader that fires late *)

(** X19: a reader started for an accepted file is not cancelled by what
    follows: when a file of another type is picked before the reader
    fires, the reader still replaces the content and resets the format,
    and the error message of the rejected file stays on the page beside
    the new content. *)
Theorem late_reader_overrides_rejection
    (good bad : File) (goods bads : list File) (st : AppState) :
  is_svg_file good = true -> is_svg_file bad = false ->
  svgContent
    (component
       (run [PickFiles (good :: goods); PickFiles (bad :: bads); ReaderLoaded 0]
            (mkSystem st [])))
  = file_text good
  /\ selectedFormat
       (component
          (run [PickFiles (good :: goods); PickFiles (bad :: bads);
                ReaderLoaded 0]
               (mkSystem st [])))
     = raw
  /\ errorMessage
       (component
          (run [PickFiles (good :: goods); PickFiles (bad :: bads);
                ReaderLoaded 0]
               (mkSystem st [])))
     = invalid_file_type.
Proof.
  intros Hgood Hbad.
  assert (E : run [PickFiles (good :: goods); PickFiles (bad :: bads);
                   ReaderLoaded 0] (mkSystem st [])
              = mkSystem
                  (reader_onload (file_text good)
                     (setErrorMessage invalid_file_type
                        (setErrorMessage [] (setErrorMessage [] st))))
                  []).
  { unfold run. cbn [fold_left].
    unfold step, handleFileInput, started.
    repeat first
      [ rewrite upload_result | rewrite Hgood | rewrite Hbad
      | progress cbn [fst snd component readers app nth_error remove_nth] ].
    reflexivity. }
  rewrite E. repeat split.
Qed.

Lemma late_reader_overrides_rejection_witness :
  svgContent
    (component
       (run [PickFiles [mkFile (txt "image/svg+xml") (txt "<svg/>")];
             PickFiles [mkFile (txt "image/png") (txt "png")];
             ReaderLoaded 0]
            (mkSystem initial_state [])))
  = txt "<svg/>"
  /\ errorMessage
       (component
          (run [PickFiles [mkFile (txt "image/svg+xml") (txt "<svg/>")];
                PickFiles [mkFile (txt "image/png") (txt "png")];
                ReaderLoaded 0]
               (mkSystem initial_state [])))
     = invalid_file_type.
Proof.
  destruct (late_reader_overrides_rejection
              (mkFile (txt "image/svg+xml") (txt "<svg/>"))
              (mkFile (txt "image/png") (txt "png")) [] [] initial_state)
    as [H1 [_ H3]]; try reflexivity.
  now split.
Defined.

(* ================================================================= *)
(** * The outcome for a non-empty content *)




(* ================================================================= *)
(** * The embedded text and the white space around the input *)

Lemma trim_start_white_prefix (s : str) :
  exists w, all_white w = true /\ s = w ++ trim_start s.
Proof.
  induction s as [|x s [w [Hw IH]]]; [now exists []|].
  simpl. destruct (is_white x) eqn:E.
  - exists (x :: w). split; [simpl; now rewrite E | simpl; now rewrite <- IH].
  - now exists [].
Qed.

(** [trim] takes white space off both ends and nothing else. *)
Lemma trim_takes_white_space (t : str) :
  exists lead trail,
    all_white lead = true /\ all_white trail = true
    /\ t = lead ++ trim t ++ trail.
Proof.
  destruct (trim_start_white_prefix t) as [w1 [H1 E1]].
  destruct (trim_start_white_prefix (rev (trim_start t))) as [w2 [H2 E2]].
  exists w1, (rev w2). split; [exact H1|]. split; [now apply all_white_rev|].
  unfold trim, trim_end.
  rewrite <- rev_app_distr, <- E2, rev_involutive. exact E1.
Qed.

(** C9: for a non-empty input, the text embedded in the jsx and in the tsx
    template is the transformed input without the white space at its two
    ends: the transformed input is that text between two runs of white
    space, and the text itself, when not empty, neither starts nor ends
    with white space.  So two non-empty inputs that differ only by white
    space around the same text [x] have the same embedded text and the same
    jsx and tsx output, whereas their raw outputs differ as they do. *)
Theorem react_output_ignores_surrounding_white_space
    (x w1 w2 w3 w4 : str) :
  all_white w1 = true -> all_white w2 = true ->
  all_white w3 = true -> all_white w4 = true ->
  w1 ++ x ++ w2 <> [] -> w3 ++ x ++ w4 <> [] ->
  exists embedded lead trail,
    all_white lead = true /\ all_white trail = true
    /\ transform x = lead ++ embedded ++ trail
    /\ transform (w1 ++ x ++ w2) = (w1 ++ lead) ++ embedded ++ (trail ++ w2)
    /\ transform (w3 ++ x ++ w4) = (w3 ++ lead) ++ embedded ++ (trail ++ w4)
    /\ (forall c r, embedded = c :: r ->
          is_white c = false /\ is_white (last (c :: r) c) = false)
    /\ getTransformedCode (w1 ++ x ++ w2) jsx
       = Returns (jsx_head ++ embedded ++ component_tail)
    /\ getTransformedCode (w3 ++ x ++ w4) jsx
       = Returns (jsx_head ++ embedded ++ component_tail)
    /\ getTransformedCode (w1 ++ x ++ w2) tsx
       = Returns (tsx_head ++ embedded ++ component_tail)
    /\ getTransformedCode (w3 ++ x ++ w4) tsx
       = Returns (tsx_head ++ embedded ++ component_tail)
    /\ (w1 ++ x ++ w2 <> w3 ++ x ++ w4 ->
        getTransformedCode (w1 ++ x ++ w2) raw
        <> getTransformedCode (w3 ++ x ++ w4) raw).
Proof.
  intros H1 H2 H3 H4 Hs1 Hs2.
  destruct (trim_takes_white_space (transform x))
    as [lead [trail [Hl [Ht E]]]].
  exists (trim (transform x)), lead, trail.
  pose proof (convertToReactProps_pad w1 x w2 H1 H2) as E1.
  pose proof (convertToReactProps_pad w3 x w4 H3 H4) as E2.
  change (convertToReactProps x) with (trim (transform x)) in E1, E2.
  split; [exact Hl|]. split; [exact Ht|]. split; [exact E|].
  split.
  { rewrite transform_pad by assumption. rewrite E at 1.
    now rewrite <- !app_assoc. }
  split.
  { rewrite transform_pad by assumption. rewrite E at 1.
    now rewrite <- !app_assoc. }
  split; [intros c r; apply trim_ends|].
  destruct (w1 ++ x ++ w2) as [|a s1]; [contradiction|].
  destruct (w3 ++ x ++ w4) as [|b s2]; [contradiction|].
  unfold getTransformedCode, jsx_template, tsx_template.
  rewrite E1, E2. repeat (split; [reflexivity|]).
  intros Hne Heq. apply Hne. congruence.
Qed.

Lemma react_output_ignores_surrounding_white_space_witness :
  exists embedded lead trail,
    all_white lead = true /\ all_white trail = true
    /\ transform (txt "<svg/> ") = lead ++ embedded ++ trail
    /\ transform ([32; 10] ++ txt "<svg/> " ++ [9])
       = ([32; 10] ++ lead) ++ embedded ++ (trail ++ [9])
    /\ transform ([] ++ txt "<svg/> " ++ [13; 10])
       = ([] ++ lead) ++ embedded ++ (trail ++ [13; 10])
    /\ (forall c r, embedded = c :: r ->
          is_white c = false /\ is_white (last (c :: r) c) = false)
    /\ getTransformedCode ([32; 10] ++ txt "<svg/> " ++ [9]) jsx
       = Returns (jsx_head ++ embedded ++ component_tail)
    /\ getTransformedCode ([] ++ txt "<svg/> " ++ [13; 10]) jsx
       = Returns (jsx_head ++ embedded ++ component_tail)
    /\ getTransformedCode ([32; 10] ++ txt "<svg/> " ++ [9]) tsx
       = Returns (tsx_head ++ embedded ++ component_tail)
    /\ getTransformedCode ([] ++ txt "<svg/> " ++ [13; 10]) tsx
       = Returns (tsx_head ++ embedded ++ component_tail)
    /\ ([32; 10] ++ txt "<svg/> " ++ [9] <> [] ++ txt "<svg/> " ++ [13; 10] ->
        getTransformedCode ([32; 10] ++ txt "<svg/> " ++ [9]) raw
        <> getTransformedCode ([] ++ txt "<svg/> " ++ [13; 10]) raw).
Proof.
  apply (react_output_ignores_surrounding_white_space
           (txt "<svg/> ") [32; 10] [9] [] [13; 10]);
    try reflexivity; discriminate.
Defined.

(* ================================================================= *)
(** * The splice and the text it is applied to *)

(** ** The renames keep the svg tags where they are *)

Lemma has_tag_cons (x : Z) (s : str) :
  has_tag (x :: s)
  = (starts_with (txt "<svg") (x :: s) && existsb (Z.eqb 62) (x :: s))
    || has_tag s.
Proof. reflexivity. Qed.

Lemma has_tag_app_r (f t : str) : has_tag t = true -> has_tag (f ++ t) = true.
Proof.
  intros H. induction f as [|x f IH]; [exact H|].
  change ((x :: f) ++ t) with (x :: f ++ t).
  rewrite has_tag_cons, IH. apply orb_true_r.
Qed.

Lemma has_gt_iff (s : str) : existsb (Z.eqb 62) s = true <-> In 62 s.
Proof.
  rewrite existsb_exists. split.
  - intros [x [Hin Hx]]. apply Z.eqb_eq in Hx. now subst x.
  - intros H. exists 62. now split.
Qed.

Lemma has_tag_iff (s : str) :
  has_tag s = true
  <-> exists pre g post, s = pre ++ txt "<svg" ++ g ++ txt ">" ++ post.
Proof.
  split.
  - induction s as [|x s IH]; intros H; [discriminate|].
    rewrite has_tag_cons in H. apply orb_true_iff in H as [H | H].
    + apply andb_true_iff in H as [Hs Hg].
      apply starts_with_inv in Hs as [rest Hrest]. rewrite Hrest in *.
      apply has_gt_iff in Hg. apply in_app_or in Hg as [Hg | Hg].
      * exfalso. vm_compute in Hg. intuition discriminate.
      * apply in_split in Hg as [g [post ->]]. now exists [], g, post.
    + destruct (IH H) as [pre [g [post ->]]]. now exists (x :: pre), g, post.
  - intros [pre [g [post ->]]]. apply has_tag_app_r.
    change (txt "<svg" ++ g ++ txt ">" ++ post)
      with (60 :: txt "svg" ++ g ++ 62 :: post).
    rewrite has_tag_cons. apply orb_true_iff. left.
    apply andb_true_iff. split.
    + change (60 :: txt "svg" ++ g ++ 62 :: post)
        with (txt "<svg" ++ g ++ 62 :: post).
      apply starts_with_app.
    + apply has_gt_iff. right. apply in_or_app. right.
      apply in_or_app. right. now left.
Qed.

(** An occurrence of [<svg] in a text is a tag of the text followed by
    a [>]. *)
Lemma includes_svg_iff (y : str) :
  includes (txt "<svg") y = true <-> has_tag (y ++ [62]) = true.
Proof.
  split.
  - intros H. apply includes_iff in H as [pre [post ->]].
    apply has_tag_iff. exists pre, post, [].
    now rewrite <- !app_assoc.
  - intros H. apply has_tag_iff in H as [pre [g [post E]]].
    assert (Hin : includes (txt "<svg") (y ++ [62]) = true).
    { apply includes_iff. exists pre, (g ++ txt ">" ++ post). exact E. }
    apply includes_separator in Hin as [Hin | Hin];
      [exact Hin | discriminate Hin | discriminate |].
    vm_compute. intuition discriminate.
Qed.

Section LiteralCharacters.
Variables k c : str.
Hypothesis k_nonempty : k <> [].
Hypothesis c_plain : existsb (Z.eqb 36) c = false.

Let R := replace_all (RegExp_literal k) c.

(** The characters of the result come from the input or from the
    replacement. *)
Lemma literal_characters (z : Z) :
  forall s : str, In z (R s) -> In z s \/ In z c.
Proof.
  intros s. induction s as [s IH] using str_length_ind. intros H.
  destruct s as [|x s].
  - unfold R in H. rewrite literal_nil in H by assumption. contradiction.
  - destruct (starts_with k (x :: s)) eqn:E.
    + apply starts_with_inv in E as [r Er]. rewrite Er in *.
      unfold R in H. rewrite literal_match in H by assumption.
      apply in_app_or in H as [H | H]; [now right|].
      apply IH in H.
      * destruct H as [H | H]; [left | now right].
        apply in_or_app. now right.
      * rewrite length_app. destruct k; [contradiction | simpl; lia].
    + unfold R in H. rewrite literal_nomatch in H by assumption.
      destruct H as [-> | H]; [left; now left|].
      apply IH in H; [|simpl; lia].
      destruct H as [H | H]; [left; now right | now right].
Qed.
End LiteralCharacters.

Lemma bracket_free_spec (c : str) :
  bracket_free c = true -> ~ In 60 c /\ ~ In 62 c.
Proof.
  unfold bracket_free. intros H. apply andb_true_iff in H as [H1 H2].
  apply negb_true_iff in H1. apply negb_true_iff in H2.
  split; intros Hin.
  - assert (existsb (Z.eqb 60) c = true)
      by (apply existsb_exists; exists 60; now split).
    congruence.
  - apply has_gt_iff in Hin. congruence.
Qed.

Lemma starts_with_svg (x : Z) (s : str) :
  starts_with (txt "<svg") (x :: s)
  = (60 =? x) && starts_with (txt "svg") s.
Proof. reflexivity. Qed.

Lemma has_tag_app_inv (w t : str) :
  has_tag (w ++ t) = true -> has_tag t = true \/ In 60 w.
Proof.
  induction w as [|y w IH]; intros H; [now left|].
  change ((y :: w) ++ t) with (y :: w ++ t) in H.
  rewrite has_tag_cons in H. apply orb_true_iff in H as [H | H].
  - apply andb_true_iff in H as [H _]. rewrite starts_with_svg in H.
    apply andb_true_iff in H as [H _]. apply Z.eqb_eq in H.
    right. now left.
  - destruct (IH H) as [Ht | Hin]; [now left | right; now right].
Qed.

(** One step of the loop brings no tag that was not there. *)
Lemma rename_step_no_new_tag (e : str * str) :
  entry_shape e = true -> bracket_free (snd e) = true ->
  forall s : str, has_tag (rename_step s e) = true -> has_tag s = true.
Proof.
  intros He Hb. destruct (bracket_free_spec _ Hb) as [Hlt Hgt].
  destruct (entry_literal e He) as [Hk Hc].
  destruct (entry_shape_spec e He)
    as [a [b0 [b2 [B [Ek [Ec [Ha [Hb0 [Hb2 [HB [Hp _]]]]]]]]]]].
  unfold rename_step. destruct e as [k c]. cbn [fst snd] in *. subst k c.
  intros s. induction s as [s IH] using str_length_ind. intros H.
  destruct s as [|x s].
  - now rewrite literal_nil in H by assumption.
  - destruct (starts_with (a ++ 45 :: b0 :: b2) (x :: s)) eqn:E.
    + apply starts_with_inv in E as [r Er]. rewrite Er in *.
      rewrite literal_match in H by assumption.
      apply has_tag_app_inv in H as [H | H]; [|contradiction].
      apply has_tag_app_r. apply IH; [|exact H].
      rewrite length_app. destruct a; simpl; lia.
    + rewrite literal_nomatch in H by assumption.
      rewrite has_tag_cons in H |- *.
      apply orb_true_iff in H as [H | H].
      * apply andb_true_iff in H as [Hs Hg]. rewrite starts_with_svg in Hs.
        apply andb_true_iff in Hs as [Hx Hs]. apply Z.eqb_eq in Hx. subst x.
        apply (kept_prefix a b0 b2 B Ha Hb0 Hb2 HB Hp) in Hs;
          [|reflexivity].
        apply has_gt_iff in Hg. destruct Hg as [Hg | Hg]; [discriminate|].
        apply literal_characters in Hg; try assumption.
        destruct Hg as [Hg | Hg]; [|contradiction].
        apply orb_true_iff. left. apply andb_true_iff. split.
        -- now rewrite starts_with_svg, Hs.
        -- apply has_gt_iff. now right.
      * rewrite (IH s); [apply orb_true_r | simpl; lia | exact H].
Qed.

Lemma attributeMap_brackets :
  forallb (fun e => bracket_free (snd e)) attributeMap = true.
Proof. vm_compute. reflexivity. Qed.

Lemma attributeMap_svg_free :
  forallb (fun e => svg_free (fst e)) attributeMap = true.
Proof. vm_compute. reflexivity. Qed.

Lemma rename_loop_no_new_tag (entries : list (str * str)) :
  forallb entry_shape entries = true ->
  forallb (fun e => bracket_free (snd e)) entries = true ->
  forall s : str,
    has_tag (fold_left rename_step entries s) = true -> has_tag s = true.
Proof.
  induction entries as [|e entries IH]; intros Hs Hb s H; [exact H|].
  cbn [forallb] in Hs, Hb.
  apply andb_true_iff in Hs as [He Hs]. apply andb_true_iff in Hb as [Hbe Hb].
  simpl in H. apply (IH Hs Hb) in H.
  now apply (rename_step_no_new_tag e He Hbe).
Qed.

Lemma rename_loop_keeps_gt (entries : list (str * str)) :
  forallb entry_shape entries = true ->
  forallb (fun e => bracket_free (snd e)) entries = true ->
  forall s : str, In 62 (fold_left rename_step entries s) -> In 62 s.
Proof.
  induction entries as [|e entries IH]; intros Hs Hb s H; [exact H|].
  cbn [forallb] in Hs, Hb.
  apply andb_true_iff in Hs as [He Hs]. apply andb_true_iff in Hb as [Hbe Hb].
  simpl in H. apply (IH Hs Hb) in H.
  destruct (entry_literal e He) as [Hk Hc].
  unfold rename_step in H.
  apply literal_characters in H as [H | H]; try assumption.
  now apply bracket_free_spec in Hbe as [_ Hgt].
Qed.

Lemma svg_free_spec (k g : str) :
  svg_free k = true ->
  starts_with k (115 :: 118 :: 103 :: g) = false
  /\ starts_with k (118 :: 103 :: g) = false
  /\ starts_with k (103 :: g) = false.
Proof.
  destruct k as [|c0 [|c1 k]]; try discriminate.
  unfold svg_free. cbn [starts_with]. intros H.
  apply andb_true_iff in H as [H H3]. apply andb_true_iff in H as [H1 H2].
  apply negb_true_iff in H1, H2, H3. rewrite H2, H3.
  split; [|now split].
  apply andb_false_iff in H1 as [-> | H1]; [reflexivity|].
  rewrite H1. apply andb_false_r.
Qed.

Lemma rename_loop_svg_prefix (entries : list (str * str)) :
  forallb (fun e => svg_free (fst e)) entries = true ->
  forall g : str,
    fold_left rename_step entries (txt "svg" ++ g)
    = txt "svg" ++ fold_left rename_step entries g.
Proof.
  induction entries as [|e entries IH]; intros Hs g; [reflexivity|].
  cbn [forallb] in Hs. apply andb_true_iff in Hs as [He Hs].
  destruct (svg_free_spec (fst e) g He) as [H1 [H2 H3]].
  simpl. unfold rename_step at 2 4.
  change (txt "svg" ++ g) with (115 :: 118 :: 103 :: g).
  rewrite !literal_nomatch by assumption.
  now apply IH.
Qed.

Lemma rename_no_new_tag (s : str) :
  has_tag (rename_attributes s) = true -> has_tag s = true.
Proof.
  apply rename_loop_no_new_tag;
    [exact attributeMap_shape | exact attributeMap_brackets].
Qed.

Lemma rename_no_new_svg (y : str) :
  includes (txt "<svg") (rename_attributes y) = true ->
  includes (txt "<svg") y = true.
Proof.
  intros H. apply includes_svg_iff. apply rename_no_new_tag.
  rewrite rename_is_local_aux by reflexivity.
  now apply includes_svg_iff.
Qed.

(** The renames go through an svg tag part by part. *)
Lemma rename_through_tag (pre g post : str) :
  rename_attributes (pre ++ txt "<svg" ++ g ++ txt ">" ++ post)
  = rename_attributes pre ++ txt "<svg" ++ rename_attributes g
      ++ txt ">" ++ rename_attributes post.
Proof.
  change (pre ++ txt "<svg" ++ g ++ txt ">" ++ post)
    with (pre ++ 60 :: (txt "svg" ++ g) ++ 62 :: post).
  rewrite rename_is_local_aux by reflexivity.
  rewrite rename_is_local_aux by reflexivity.
  unfold rename_attributes at 2.
  rewrite rename_loop_svg_prefix by exact attributeMap_svg_free.
  reflexivity.
Qed.

(** A text in which [<?xml] does not occur holds no declaration. *)
Lemma strip_without_declaration (s : str) :
  includes (txt "<?xml") s = false -> strip_xml_declaration s = s.
Proof.
  unfold strip_xml_declaration. induction s as [|x s IH]; intros H.
  - now apply replace_all_nil.
  - rewrite includes_cons in H. apply orb_false_iff in H as [H1 H2].
    rewrite replace_all_nomatch by now apply match_chars_none.
    f_equal. now apply IH.
Qed.

(** C10, as stated: the first opening svg tag of the document would
    receive the additions, and a document without such a tag none.  The
    declaration removal comes first and can join or delete text: the first
    input below has no [<svg] and yet its output holds the additions; in
    the second one the first svg tag of the input is deleted with the
    declaration around it and the additions go into the later tag. *)
Lemma splice_follows_declaration_removal :
  (forall pre g post,
      txt "<s<?xml?>vg>" <> pre ++ txt "<svg" ++ g ++ txt ">" ++ post)
  /\ getTransformedCode (txt "<s<?xml?>vg>") jsx
     = Returns (jsx_head
                  ++ txt "<svg {...props} fill=" ++ q "currentColor"
                  ++ txt " role=" ++ q "img" ++ txt ">"
                  ++ component_tail)
  /\ txt "<g><?xml <svg a>?><svg b>"
     = txt "<g><?xml " ++ txt "<svg" ++ txt " a" ++ txt ">" ++ txt "?><svg b>"
  /\ includes (txt "<svg") (txt "<g><?xml " ++ txt "<sv") = false
  /\ getTransformedCode (txt "<g><?xml <svg a>?><svg b>") jsx
     = Returns (jsx_head
                  ++ txt "<g><svg {...props} fill=" ++ q "currentColor"
                  ++ txt " role=" ++ q "img" ++ txt " b>"
                  ++ component_tail).
Proof.
  split; [|repeat split; vm_compute; reflexivity].
  intros pre g post H.
  assert (Hin : includes (txt "<svg") (txt "<s<?xml?>vg>") = true).
  { apply includes_iff. exists pre, (g ++ txt ">" ++ post). exact H. }
  discriminate Hin.
Qed.

(** C10, amended: in the jsx and tsx transforms the splice is applied to
    the text the declaration removal leaves, [d]: the first [<svg ... >]
    of [d], the one with no [<svg] before it and no [>] in its attribute
    text [g], receives [{...props}], [fill="currentColor"] and
    [role="img"] right after the tag name; the text after that tag, further
    svg tags included, receives no addition, it is only renamed as the
    text before the tag and the attribute text are; and when [d] has no
    such tag nothing is added.  [d] is the document itself when [<?xml]
    does not occur in it. *)
Theorem splice_first_tag_only (s : str) :
  let d := strip_xml_declaration s in
  (forall pre g post,
      d = pre ++ txt "<svg" ++ g ++ txt ">" ++ post ->
      ~ In 62 g ->
      includes (txt "<svg") (pre ++ txt "<sv") = false ->
      convertToReactProps s
      = trim (rename_attributes pre
                ++ txt "<svg"
                ++ (txt " {...props} fill=" ++ q "currentColor"
                      ++ txt " role=" ++ q "img")
                ++ rename_attributes g ++ txt ">"
                ++ rename_attributes post))
  /\ ((forall pre g post, d <> pre ++ txt "<svg" ++ g ++ txt ">" ++ post) ->
      convertToReactProps s = trim (rename_attributes d))
  /\ (includes (txt "<?xml") s = false -> d = s).
Proof.
  intros d. split; [|split].
  - intros pre g post Hd Hg Hpre. unfold convertToReactProps. fold d.
    rewrite Hd, rename_through_tag. f_equal.
    rewrite splice_skip.
    + f_equal. apply splice_at_tag.
      intros Hin. apply Hg.
      exact (rename_loop_keeps_gt _ attributeMap_shape attributeMap_brackets
               g Hin).
    + apply not_true_is_false. intros Hin.
      change (rename_attributes pre ++ txt "<sv")
        with (rename_attributes pre ++ 60 :: rename_attributes (txt "sv"))
        in Hin.
      rewrite <- rename_is_local_aux in Hin by reflexivity.
      apply rename_no_new_svg in Hin.
      change (pre ++ 60 :: txt "sv") with (pre ++ txt "<sv") in Hin.
      congruence.
  - intros Hno. unfold convertToReactProps. fold d. f_equal.
    apply splice_no_tag. intros pre g post E.
    assert (Ht : has_tag (rename_attributes d) = true).
    { apply has_tag_iff. now exists pre, g, post. }
    apply rename_no_new_tag, has_tag_iff in Ht as [pre' [g' [post' E']]].
    exact (Hno pre' g' post' E').
  - apply strip_without_declaration.
Qed.

Lemma splice_first_tag_only_witness :
  convertToReactProps (txt "<g><svg stroke-width=2><svg fill-rule=x>")
  = trim (rename_attributes (txt "<g>")
            ++ txt "<svg"
            ++ (txt " {...props} fill=" ++ q "currentColor"
                  ++ txt " role=" ++ q "img")
            ++ rename_attributes (txt " stroke-width=2") ++ txt ">"
            ++ rename_attributes (txt "<svg fill-rule=x>"))
  /\ convertToReactProps (txt "<g>svg</g>")
     = trim (rename_attributes (strip_xml_declaration (txt "<g>svg</g>")))
  /\ strip_xml_declaration (txt "<g><svg stroke-width=2><svg fill-rule=x>")
     = txt "<g><svg stroke-width=2><svg fill-rule=x>".
Proof.
  split; [|split].
  - apply (proj1 (splice_first_tag_only
                    (txt "<g><svg stroke-width=2><svg fill-rule=x>"))
             (txt "<g>") (txt " stroke-width=2") (txt "<svg fill-rule=x>")).
    + reflexivity.
    + vm_compute. intuition discriminate.
    + reflexivity.
  - apply (proj1 (proj2 (splice_first_tag_only (txt "<g>svg</g>")))).
    intros pre g post H.
    assert (Hin : includes (txt "<svg") (txt "<g>svg</g>") = true).
    { apply includes_iff. exists pre, (g ++ txt ">" ++ post).
      vm_compute in H. vm_compute. exact H. }
    discriminate Hin.
  - apply (proj2 (proj2 (splice_first_tag_only
                           (txt "<g><svg stroke-width=2><svg fill-rule=x>")))).
    reflexivity.
Defined.
